(** * Ashare_data: acquisition and reconciliation pipeline

    A shallow embedding of the Python package [Ashare_data]:
    - [utils/rate_limiter.py]   (AsyncRateLimiter, async_retry)
    - [providers/base.py], [providers/qq.py], [providers/eastmoney.py]
    - [fetchers/daily.py]       (DailyFetcher)
    - [storage/sqlite.py]       (SQLiteStorage, table daily_bars)
    - [scheduler/initializer.py], [scheduler/daily_update.py]

    Part I holds the embedding, Part II the properties.

    Conventions.  Python floats are IEEE binary64 values, taken here as
    [spec_float] with precision 53 and maximal exponent 1024; delays are
    exact rationals.  An [async] function is a state transformer that may
    raise: one task runs its statements in order, and what happens at an
    [await] is an operation on the outside world (network, event loop),
    which stays abstract.  The database file is written by the modelled
    task alone, and the engine is taken by the SQL of the statements: a
    table is the list of its rows; a float is bound as SQLite binds it, a
    NaN as NULL, which the columns REAL NOT NULL refuse with
    IntegrityError, and a REAL column gives back the number it was given, a
    negative zero as 0.0; a transaction that raises is rolled back.  Each
    computation appends the calls it makes to a trace; the trace is
    specification state only. *)

From Stdlib Require Import ZArith QArith String Ascii List Bool Lia.
From Stdlib Require Import Floats.SpecFloat Sorting.Permutation Sorting.Sorted.
From stdpp Require Import gmap strings list.

Set Default Proof Using "Type".
Local Open Scope string_scope.
Local Open Scope list_scope.

(** * Part I: the embedding *)

(** ** Exceptions *)

(** The exception classes the code names or can meet, with their bases;
    [SQLiteError] is [sqlite3.Error]. *)
Inductive exc_class :=
| BaseException | Exception
| TypeError | ValueError | AttributeError | ArithmeticError | OverflowError
| RuntimeError | HTTPError | KeyboardInterrupt | CancelledError
| SQLiteError | DatabaseError | IntegrityError.

#[global] Instance exc_class_eq_dec : EqDecision exc_class.
Proof. solve_decision. Defined.

(** Method resolution order: the class followed by its bases. *)
Definition mro (c : exc_class) : list exc_class :=
  match c with
  | BaseException => [BaseException]
  | Exception => [Exception; BaseException]
  | TypeError => [TypeError; Exception; BaseException]
  | ValueError => [ValueError; Exception; BaseException]
  | AttributeError => [AttributeError; Exception; BaseException]
  | ArithmeticError => [ArithmeticError; Exception; BaseException]
  | OverflowError => [OverflowError; ArithmeticError; Exception; BaseException]
  | RuntimeError => [RuntimeError; Exception; BaseException]
  | HTTPError => [HTTPError; Exception; BaseException]
  | KeyboardInterrupt => [KeyboardInterrupt; BaseException]
  | CancelledError => [CancelledError; BaseException]
  | SQLiteError => [SQLiteError; Exception; BaseException]
  | DatabaseError => [DatabaseError; SQLiteError; Exception; BaseException]
  | IntegrityError =>
      [IntegrityError; DatabaseError; SQLiteError; Exception; BaseException]
  end.

Definition issubclass (c d : exc_class) : bool := bool_decide (d ∈ mro c).

Record exn := mk_exn { exn_class : exc_class; exn_msg : string }.

(** [isinstance(e, classes)]: what an [except classes:] clause catches. *)
Definition isinstance (e : exn) (classes : list exc_class) : bool :=
  existsb (issubclass (exn_class e)) classes.
Arguments isinstance : simpl never.

(** A computation without side effects: a value or a raised exception. *)
Inductive res (A : Type) :=
| Ok (a : A)
| Raise (e : exn).
Arguments Ok {A} a.
Arguments Raise {A} e.

Definition res_bind {A B} (c : res A) (k : A → res B) : res B :=
  match c with
  | Ok a => k a
  | Raise e => Raise e
  end.

(** [try: body  except classes: handler] *)
Definition try_except {A} (body : res A) (classes : list exc_class) (handler : exn → res A) : res A :=
  match body with
  | Ok a => Ok a
  | Raise e => if isinstance e classes then handler e else Raise e
  end.

Declare Scope res_scope.
Delimit Scope res_scope with res.
Notation "x <- c ;; k" := (res_bind c (fun x => k))
  (at level 20, c at level 99, k at level 200, only parsing) : res_scope.

(** ** Floats *)

Definition float := spec_float.
Definition prec : Z := 53.
Definition emax : Z := 1024.

(** [float(z)] for a Python int that is in range. *)
Definition float_of_Z (z : Z) : float := binary_normalize prec emax z 0 false.

Definition is_nan (x : float) : bool :=
  match x with
  | S754_nan => true
  | _ => false
  end.

(** The comparison operators of [float]; every comparison with NaN is false. *)
Definition float_lt (x y : float) : bool := SFltb x y.
Definition float_le (x y : float) : bool := SFleb x y.
Definition float_gt (x y : float) : bool :=
  match SFcompare x y with
  | Some Gt => true
  | _ => false
  end.

(** [bool(x)]: a float is falsy exactly when it is a zero (of either sign). *)
Definition float_truthy (x : float) : bool :=
  match x with
  | S754_zero _ => false
  | _ => true
  end.

(** [x or y] on floats. *)
Definition float_or (x y : float) : float := if float_truthy x then x else y.

(** The builtins [max(x, *rest)] and [min(x, *rest)]: the running value is
    replaced by an item only when [item > value] ([item < value]). *)
Definition py_max (x : float) (rest : list float) : float :=
  fold_left (fun m item => if float_gt item m then item else m) rest x.
Definition py_min (x : float) (rest : list float) : float :=
  fold_left (fun m item => if float_lt item m then item else m) rest x.
Arguments py_max : simpl never.
Arguments py_min : simpl never.

(** ** JSON values, as [json.loads] builds them *)

Local Set Warnings "-register-all".
Inductive json :=
| JNull
| JBool (b : bool)
| JInt (z : Z)
| JFloat (f : float)
| JStr (s : string)
| JList (l : list json)
| JDict (d : list (string * json)).

(** Truth value of an object. *)
Definition truthy (v : json) : bool :=
  match v with
  | JNull => false
  | JBool b => b
  | JInt z => negb (z =? 0)%Z
  | JFloat f => float_truthy f
  | JStr s => negb (s =? "")%string
  | JList l => match l with [] => false | _ => true end
  | JDict d => match d with [] => false | _ => true end
  end.

Definition py_or (x y : json) : json := if truthy x then x else y.

Fixpoint dict_lookup {V} (k : string) (d : list (string * V)) : option V :=
  match d with
  | [] => None
  | (k', v) :: d' => if (k =? k')%string then Some v else dict_lookup k d'
  end.

(** [obj.get(key, default)]: only a dict has the method. *)
Definition py_get (obj : json) (key : string) (dflt : json) : res json :=
  match obj with
  | JDict d => Ok (default dflt (dict_lookup key d))
  | _ => Raise (mk_exn AttributeError "object has no attribute 'get'")
  end.

(** Library functions whose results the code only passes on: parsing a
    numeral with [float(str)] ([None] when Python raises ValueError),
    [json.dumps] with the separators of [json_dumps], [str.strip] and
    [datetime.strptime(line, "%Y-%m-%d").date()] as an ordinal ([None] when
    Python raises ValueError). *)
Class Builtins := {
  float_of_str : string → option float;
  json_dumps : json → string;
  str_strip : string → string;
  strptime_Ymd : string → option Z
}.

(** The builtin [float(v)]. *)
Definition py_float `{Builtins} (v : json) : res float :=
  match v with
  | JNull => Raise (mk_exn TypeError "float() argument must be a string or a real number, not 'NoneType'")
  | JBool b => Ok (float_of_Z (if b then 1 else 0))
  | JInt z =>
      match float_of_Z z with
      | S754_infinity _ => Raise (mk_exn OverflowError "int too large to convert to float")
      | f => Ok f
      end
  | JFloat f => Ok f
  | JStr s =>
      match float_of_str s with
      | Some f => Ok f
      | None => Raise (mk_exn ValueError "could not convert string to float")
      end
  | JList _ => Raise (mk_exn TypeError "float() argument must be a string or a real number, not 'list'")
  | JDict _ => Raise (mk_exn TypeError "float() argument must be a string or a real number, not 'dict'")
  end.

(** ** Dates

    A [datetime.date] is taken by its proleptic Gregorian ordinal
    ([date.toordinal()]): comparison is comparison of ordinals and
    [d + timedelta(days=1)] is the next ordinal. *)

Record date := mk_date { toordinal : Z }.

#[global] Instance date_eq_dec : EqDecision date.
Proof. solve_decision. Defined.

Definition MAXORDINAL : Z := 3652059.

Definition _is_leap (year : Z) : bool :=
  (year mod 4 =? 0)%Z && (negb (year mod 100 =? 0)%Z || (year mod 400 =? 0)%Z).

Definition _days_before_year (year : Z) : Z :=
  let y := (year - 1)%Z in (y * 365 + y / 4 - y / 100 + y / 400)%Z.

Definition _DAYS_IN_MONTH : list Z := [-1; 31; 28; 31; 30; 31; 30; 31; 31; 30; 31; 30; 31]%Z.
Definition _DAYS_BEFORE_MONTH : list Z := [-1; 0; 31; 59; 90; 120; 151; 181; 212; 243; 273; 304; 334]%Z.

Definition _days_before_month (year month : Z) : Z :=
  (nth (Z.to_nat month) _DAYS_BEFORE_MONTH 0 + (if (2 <? month) && _is_leap year then 1 else 0))%Z.

Definition _ymd2ord (year month day : Z) : Z :=
  (_days_before_year year + _days_before_month year month + day)%Z.

Definition _ord2ymd (n : Z) : Z * Z * Z :=
  let n := (n - 1)%Z in
  let n400 := (n / 146097)%Z in
  let n := (n mod 146097)%Z in
  let year := (n400 * 400 + 1)%Z in
  let n100 := (n / 36524)%Z in
  let n := (n mod 36524)%Z in
  let n4 := (n / 1461)%Z in
  let n := (n mod 1461)%Z in
  let n1 := (n / 365)%Z in
  let n := (n mod 365)%Z in
  let year := (year + n100 * 100 + n4 * 4 + n1)%Z in
  if (n1 =? 4)%Z || (n100 =? 4)%Z then (year - 1, 12, 31)%Z
  else
    let leapyear := (n1 =? 3)%Z && (negb (n4 =? 24)%Z || (n100 =? 3)%Z) in
    let month := Z.shiftr (n + 50) 5 in
    let preceding :=
      (nth (Z.to_nat month) _DAYS_BEFORE_MONTH 0 + (if (2 <? month) && leapyear then 1 else 0))%Z in
    if (n <? preceding)%Z then
      let month := (month - 1)%Z in
      let preceding :=
        (preceding - (nth (Z.to_nat month) _DAYS_IN_MONTH 0
                      + (if (month =? 2) && leapyear then 1 else 0)))%Z in
      (year, month, n - preceding + 1)%Z
    else (year, month, n - preceding + 1)%Z.

(** [date(year, month, day)] for a valid calendar day. *)
Definition date_of_ymd (year month day : Z) : date := mk_date (_ymd2ord year month day).

(** [d.weekday()]: Monday is 0. *)
Definition weekday (d : date) : Z := ((toordinal d + 6) mod 7)%Z.

Definition date_le (a b : date) : bool := (toordinal a <=? toordinal b)%Z.

Definition digit (n : Z) : ascii := ascii_of_nat (48 + Z.to_nat (n mod 10)).

Definition fmt02 (n : Z) : string := String (digit (n / 10)) (String (digit n) "").
Definition fmt04 (n : Z) : string :=
  String (digit (n / 1000)) (String (digit (n / 100)) (String (digit (n / 10)) (String (digit n) ""))).

(** [d.isoformat()], which is also [d.strftime("%Y-%m-%d")] for the
    four-digit years of the data. *)
Definition isoformat (d : date) : string :=
  let '(y, m, dd) := _ord2ymd (toordinal d) in
  fmt04 y ++ "-" ++ fmt02 m ++ "-" ++ fmt02 dd.

Definition strftime_Ymd (d : date) : string := isoformat d.

(** ** The normalized result of a provider ([providers/base.py]) *)

Module PR.
Record t := mk {
  symbol : string;
  trade_date : date;
  open : float;
  high : float;
  low : float;
  close : float;
  volume : float;
  turnover : float;
  raw : json
}.
End PR.
Abbreviation ProviderResult := PR.t.

(** ** Stateful computations: [async def] bodies

    [M S A] is a computation over a state [S] that returns an [A] or raises. *)

Definition M (S A : Type) : Type := S → res A * S.

Definition ret {S A} (a : A) : M S A := fun s => (Ok a, s).
Definition raise {S A} (e : exn) : M S A := fun s => (Raise e, s).
Definition bind {S A B} (c : M S A) (k : A → M S B) : M S B :=
  fun s =>
    match c s with
    | (Ok a, s') => k a s'
    | (Raise e, s') => (Raise e, s')
    end.
(** A computation without effects used inside an [async def]. *)
Definition lift {S A} (r : res A) : M S A := fun s => (r, s).

(** [try: body  finally: final] *)
Definition try_finally {S A} (body : M S A) (final : M S unit) : M S A :=
  fun s =>
    let '(r, s1) := body s in
    match final s1 with
    | (Ok _, s2) => (r, s2)
    | (Raise e, s2) => (Raise e, s2)
    end.

Declare Scope M_scope.
Delimit Scope M_scope with M.
Notation "x <- c ;; k" := (bind c (fun x => k))
  (at level 20, c at level 99, k at level 200, only parsing) : M_scope.
Notation "c ;;; k" := (bind c (fun _ => k))
  (at level 100, k at level 200, right associativity, only parsing) : M_scope.

(** ** Rate limiting and retry ([utils/rate_limiter.py])

    The world of one provider call: the network and event loop [X], which
    the embedding leaves abstract, and the trace of what the call did. *)

Inductive net_event :=
| EvAcquire
| EvAttempt (attempt : Z) (failure : option exn)
| EvSleep (delay : Q).

Record net_world (X : Type) := mk_net { next : X; ntrace : list net_event }.
Arguments mk_net {X} next ntrace.
Arguments next {X} n.
Arguments ntrace {X} n.

Definition emit {X} (ev : net_event) : M (net_world X) unit :=
  fun w => (Ok tt, mk_net (next w) (ntrace w ++ [ev])).

(** An operation on the outside world alone, run from inside a call. *)
Definition net_op {X A} (op : X → res A * X) : M (net_world X) A :=
  fun w => let '(r, x) := op (next w) in (r, mk_net x (ntrace w)).

Record AsyncRateLimiter := mk_limiter { _rate : Z; _period : Q }.

Definition AsyncRateLimiter_init (rate : Z) (per : Q) : res AsyncRateLimiter :=
  if (rate <=? 0)%Z then Raise (mk_exn ValueError "rate must be positive")
  else if Qle_bool per 0 then Raise (mk_exn ValueError "per must be positive")
  else Ok (mk_limiter rate per).

(** [acquire] returns once a permit is granted; the permit comes back to
    the pool [_period] later from a task of its own.  Only the call is
    recorded. *)
Definition acquire {X} (limiter : AsyncRateLimiter) : M (net_world X) unit :=
  emit EvAcquire.

(** [asyncio.sleep(delay)] *)
Definition sleep {X} (delay : Q) : M (net_world X) unit := emit (EvSleep delay).

Section Retry.
Context {X A : Type}.
Variables (attempts : Z) (exceptions : list exc_class) (func : X → res A * X).

(** The loop [for attempt in range(1, attempts + 1)] with [n] iterations
    left, followed by the statement after the loop. *)
Fixpoint retry_loop (n : nat) (attempt : Z) (delay : Q) : M (net_world X) A :=
  match n with
  | O => raise (mk_exn RuntimeError "retry decorator failed unexpectedly")
  | S n' =>
      fun w =>
        match func (next w) with
        | (Ok v, x) => (Ok v, mk_net x (ntrace w ++ [EvAttempt attempt None]))
        | (Raise e, x) =>
            let w1 := mk_net x (ntrace w ++ [EvAttempt attempt (Some e)]) in
            if isinstance e exceptions then
              if (attempt =? attempts)%Z then (Raise e, w1)
              else (sleep delay ;;; retry_loop n' (attempt + 1) (delay * 2)%Q)%M w1
            else (Raise e, w1)
        end
  end.

End Retry.

(** [async_retry(attempts=, base_delay=, exceptions=)(func)] *)
Definition async_retry {X A} (attempts : Z) (base_delay : Q) (exceptions : list exc_class)
    (func : X → res A * X) : M (net_world X) A :=
  retry_loop attempts exceptions func (Z.to_nat attempts) 1 base_delay.

(** ** Settings ([utils/config.py]) *)

Record Settings := {
  database_path : string;
  qq_endpoint : string;
  eastmoney_endpoint : string;
  http_timeout : Q;
  (** the lines of the calendar file, when [calendar_path] is set and exists *)
  calendar_file : option (list string);
  max_requests_per_second : Z;
  retry_attempts : Z;
  retry_base_delay : Q
}.

(** ** Providers ([providers/base.py], [providers/qq.py], [providers/eastmoney.py]) *)

(** An [httpx.AsyncClient]: [get_json url params timeout] stands for
    [client.get(url, params=, timeout=)], [raise_for_status()] and
    [response.json()], any of which may raise. *)
Record HttpClient (X : Type) := {
  get_json : string → list (string * json) → Q → X → res json * X;
  aclose : X → res unit * X
}.
Arguments get_json {X} h _ _ _ _.
Arguments aclose {X} h _.

Inductive variant := QQ | EastMoney.

(** The attributes of a [QQProvider] or an [EastMoneyProvider] instance. *)
Record NetProvider (X : Type) := {
  kind : variant;
  np_priority : Z;
  _rate_limiter : option AsyncRateLimiter;
  _retry_attempts : Z;
  _retry_base_delay : Q;
  _endpoint : string;
  _timeout : Q;
  _client : option (HttpClient X);
  _owns_client : bool
}.
Arguments kind {X} n.
Arguments np_priority {X} n.
Arguments _rate_limiter {X} n.
Arguments _retry_attempts {X} n.
Arguments _retry_base_delay {X} n.
Arguments _endpoint {X} n.
Arguments _timeout {X} n.
Arguments _client {X} n.
Arguments _owns_client {X} n.

Definition np_name (k : variant) : string :=
  match k with
  | QQ => "qq"
  | EastMoney => "eastmoney"
  end.

(** The first [sep] splits the string as [str.split(sep)] does. *)
Fixpoint split (sep : ascii) (s : string) : list string :=
  match s with
  | EmptyString => [EmptyString]
  | String c s' =>
      if Ascii.eqb c sep then EmptyString :: split sep s'
      else
        match split sep s' with
        | [] => [String c EmptyString]
        | hd :: tl => String c hd :: tl
        end
  end.

(** [for row in v]: the items a [for] loop visits, when [v] is iterable. *)
Definition py_iter (v : json) : res (list json) :=
  match v with
  | JList l => Ok l
  | JDict d => Ok (map (fun kv => JStr (fst kv)) d)
  | JStr s => Ok (map (fun c => JStr (String c EmptyString)) (list_ascii_of_string s))
  | _ => Raise (mk_exn TypeError "object is not iterable")
  end.

Section Providers.
Context `{Builtins} {X : Type}.
Variable settings : Settings.
(** [httpx.AsyncClient(timeout=...)] *)
Variable AsyncClient : Q → HttpClient X.

(** [__init__(self, *, priority=0, client=None, rate_limiter=None)] *)
Definition NetProvider_init (k : variant) (priority : Z) (client : option (HttpClient X))
    (rate_limiter : option AsyncRateLimiter) : res (NetProvider X) :=
  (limiter <-
     match rate_limiter with
     | Some l => Ok l
     | None => AsyncRateLimiter_init (max_requests_per_second settings) 1
     end ;;
   Ok {| kind := k;
         np_priority := priority;
         _rate_limiter := Some limiter;
         _retry_attempts := retry_attempts settings;
         _retry_base_delay := retry_base_delay settings;
         _endpoint := match k with
                      | QQ => qq_endpoint settings
                      | EastMoney => eastmoney_endpoint settings
                      end;
         _timeout := http_timeout settings;
         _client := client;
         _owns_client := match client with None => true | Some _ => false end |})%res.

Definition _apply_rate_limit (self : NetProvider X) : M (net_world X) unit :=
  match _rate_limiter self with
  | None => ret tt
  | Some limiter => acquire limiter
  end.

Definition request_params (k : variant) (symbol : string) (trade_date : date) : list (string * json) :=
  match k with
  | QQ =>
      [("page", JInt 1); ("pageSize", JInt 1);
       ("reqDay", JStr (strftime_Ymd trade_date)); ("symbol", JStr symbol)]
  | EastMoney =>
      [("fields1", JStr "f1,f2,f3,f4,f5,f6"); ("fields2", JStr "f51,f52,f53,f54,f55,f56,f57");
       ("klt", JInt 101); ("fqt", JInt 1); ("secid", JStr symbol)]
  end.

(** One HTTP GET; a client made for the call is closed in the [finally]. *)
Definition _request_daily (self : NetProvider X) (symbol : string) (trade_date : date)
    : X → res json * X :=
  let params := request_params (kind self) symbol trade_date in
  let client := default (AsyncClient (_timeout self)) (_client self) in
  let close_client := match _client self with None => true | Some _ => false end in
  try_finally
    (get_json client (_endpoint self) params (_timeout self))
    (if close_client then aclose client else ret tt).

(** [QQProvider._parse_payload] *)
Definition QQ_parse_payload (symbol : string) (trade_date : date) (payload : json)
    : res (option ProviderResult) :=
  (d <- py_get payload "data" JNull ;;
   let data := py_or d (JDict []) in
   if negb (truthy data) then Ok None
   else
     diff <- py_get data "diff" JNull ;;
     let bar :=
       match diff with
       | JList (first :: _) => first
       | _ => data
       end in
     let prices :=
       (o' <- py_get bar "openPrice" JNull ;;
        o <- py_get bar "open" o' ;;
        open_price <- py_float o ;;
        h' <- py_get bar "highest" JNull ;;
        h <- py_get bar "high" h' ;;
        high_price <- py_float h ;;
        l' <- py_get bar "lowest" JNull ;;
        l <- py_get bar "low" l' ;;
        low_price <- py_float l ;;
        c' <- py_get bar "price" JNull ;;
        c <- py_get bar "close" c' ;;
        close_price <- py_float c ;;
        Ok (open_price, high_price, low_price, close_price)) in
     match prices with
     | Raise e => if isinstance e [TypeError; ValueError] then Ok None else Raise e
     | Ok (open_price, high_price, low_price, close_price) =>
         v' <- py_get bar "vol" (JInt 0) ;;
         v <- py_get bar "volume" v' ;;
         volume <- py_float v ;;
         t' <- py_get bar "turn" (JInt 0) ;;
         t <- py_get bar "turnover" t' ;;
         turnover <- py_float t ;;
         Ok (Some (PR.mk symbol trade_date open_price high_price low_price close_price
                     volume turnover payload))
     end)%res.

(** The loop that looks for the row of the requested day. *)
Fixpoint find_target (date_str : string) (klines : list json) : option string :=
  match klines with
  | [] => None
  | JStr row :: rest =>
      if String.prefix date_str row then Some row else find_target date_str rest
  | _ :: rest => find_target date_str rest
  end.

(** [EastMoneyProvider._parse_payload] *)
Definition EastMoney_parse_payload (symbol : string) (trade_date : date) (payload : json)
    : res (option ProviderResult) :=
  (d <- py_get payload "data" JNull ;;
   let data := py_or d (JDict []) in
   klines <- py_get data "klines" JNull ;;
   if negb (truthy klines) then Ok None
   else
     rows <- py_iter klines ;;
     let date_str := strftime_Ymd trade_date in
     match find_target date_str rows with
     | None => Ok None
     | Some target =>
         try_except
           match firstn 7 (split "," target) with
           | [_date; open_price; close_price; high_price; low_price; volume; turnover] =>
               o <- py_float (JStr open_price) ;;
               h <- py_float (JStr high_price) ;;
               l <- py_float (JStr low_price) ;;
               c <- py_float (JStr close_price) ;;
               v <- py_float (JStr volume) ;;
               t <- py_float (JStr turnover) ;;
               Ok (Some (PR.mk symbol trade_date o h l c v t payload))
           | _ => Raise (mk_exn ValueError "not enough values to unpack")
           end
           [ValueError; TypeError]
           (fun _ => Ok None)
     end)%res.

Definition _parse_payload (self : NetProvider X) : string → date → json → res (option ProviderResult) :=
  match kind self with
  | QQ => QQ_parse_payload
  | EastMoney => EastMoney_parse_payload
  end.

(** [_with_retry(func)] *)
Definition _with_retry {A} (self : NetProvider X) (func : X → res A * X) : M (net_world X) A :=
  async_retry (_retry_attempts self) (_retry_base_delay self) [Exception] func.

(** [fetch_daily], the same text in both variants. *)
Definition net_fetch_daily (self : NetProvider X) (symbol : string) (trade_date : date)
    : M (net_world X) (option ProviderResult) :=
  (_apply_rate_limit self ;;;
   payload <- _with_retry self (_request_daily self symbol trade_date) ;;
   if negb (truthy payload) then ret None
   else lift (_parse_payload self symbol trade_date payload))%M.

(** [close]: closes the client only when the provider owns one. *)
Definition net_close (self : NetProvider X) : M (net_world X) unit :=
  match _client self with
  | Some client => if _owns_client self then net_op (aclose client) else ret tt
  | None => ret tt
  end.

End Providers.
Arguments find_target : simpl never.
Arguments py_float : simpl never.

(** ** The world of the fetcher, the storage and the schedulers *)

(** A row of table [daily_bars]; its primary key is (symbol, trade_date). *)
Record bar_row := mk_row {
  r_symbol : string;
  r_trade_date : string;
  r_open : float;
  r_high : float;
  r_low : float;
  r_close : float;
  r_volume : float;
  r_turnover : float;
  r_raw_payload : string
}.

(** The database file: column [symbol] of table [securities] (the only one
    this code reads) and the rows of [daily_bars]. *)
Record database := mk_db {
  securities : list string;
  daily_bars : list bar_row
}.

Inductive event :=
| EvFetch (symbol : string) (trade_date : date)
| EvFetchDaily (provider : string) (priority : Z) (symbol : string) (trade_date : date)
| EvFetched (symbol : string) (trade_date : date) (result : option ProviderResult)
| EvClose (provider : string) (priority : Z)
| EvSelectSymbols
| EvSelectDates (symbol : string)
| EvUpsertBars (records : list bar_row).

Record world (X : Type) := mk_world { ext : X; db : database; trace : list event }.
Arguments mk_world {X} ext db trace.
Arguments ext {X} w.
Arguments db {X} w.
Arguments trace {X} w.

Definition log {X} (ev : event) : M (world X) unit :=
  fun w => (Ok tt, mk_world (ext w) (db w) (trace w ++ [ev])).

(** An operation of a provider: it acts on the outside world only. *)
Definition ext_op {X A} (op : X → res A * X) : M (world X) A :=
  fun w => let '(r, x) := op (ext w) in (r, mk_world x (db w) (trace w)).

(** [for x in l: body(x)] *)
Fixpoint for_each {S A} (l : list A) (body : A → M S unit) : M S unit :=
  match l with
  | [] => ret tt
  | x :: l' => (body x ;;; for_each l' body)%M
  end.

(** A stable sort: [x], which stood before all of [l], goes after the items
    that come strictly before it in the order and before all others. *)
Fixpoint insert_by {A} (before : A → A → bool) (x : A) (l : list A) : list A :=
  match l with
  | [] => [x]
  | y :: l' => if before y x then y :: insert_by before x l' else x :: y :: l'
  end.

Definition sorted_by {A} (before : A → A → bool) (l : list A) : list A :=
  foldr (insert_by before) [] l.

(** ** The aggregated fetcher ([fetchers/daily.py]) *)

(** The interface [BaseProvider] as the fetcher uses it. *)
Record Provider (X : Type) := {
  name : string;
  priority : Z;
  fetch_daily : string → date → X → res (option ProviderResult) * X;
  close : X → res unit * X
}.
Arguments name {X} p.
Arguments priority {X} p.
Arguments fetch_daily {X} p _ _ _.
Arguments close {X} p _.

Record DailyFetcher (X : Type) := { _providers : list (Provider X) }.
Arguments _providers {X} d.

(** [sorted(providers, key=lambda provider: provider.priority, reverse=True)] *)
Definition DailyFetcher_init {X} (providers : list (Provider X)) : DailyFetcher X :=
  {| _providers := sorted_by (fun p q => (priority q <? priority p)%Z) providers |}.

(** [DailyFetcher._clean]; [float(x)] of a float is [x]. *)
Definition _clean (result : ProviderResult) : ProviderResult :=
  let open := float_or (PR.open result) (PR.close result) in
  let high := py_max (PR.high result) [open; PR.close result] in
  let low := py_min (PR.low result) [open; PR.close result] in
  let close := PR.close result in
  let volume := if float_truthy (PR.volume result) then PR.volume result else float_of_Z 0 in
  let turnover := if float_truthy (PR.turnover result) then PR.turnover result else float_of_Z 0 in
  PR.mk (PR.symbol result) (PR.trade_date result) open high low close volume turnover
        (PR.raw result).

Section Fetcher.
Context {X : Type}.

(** The loop of [DailyFetcher.fetch] over the providers still to try. *)
Fixpoint fetch_loop (providers : list (Provider X)) (symbol : string) (trade_date : date)
    : M (world X) (option ProviderResult) :=
  match providers with
  | [] => ret None
  | provider :: rest =>
      (log (EvFetchDaily (name provider) (priority provider) symbol trade_date) ;;;
       fun w =>
         match ext_op (fetch_daily provider symbol trade_date) w with
         | (Raise exc, w') =>
             if isinstance exc [Exception] then fetch_loop rest symbol trade_date w'
             else (Raise exc, w')
         | (Ok (Some result), w') => (Ok (Some (_clean result)), w')
         | (Ok None, w') => fetch_loop rest symbol trade_date w'
         end)%M
  end.

Definition fetch (self : DailyFetcher X) (symbol : string) (trade_date : date)
    : M (world X) (option ProviderResult) :=
  (log (EvFetch symbol trade_date) ;;;
   result <- fetch_loop (_providers self) symbol trade_date ;;
   log (EvFetched symbol trade_date result) ;;;
   ret result)%M.

(** [DailyFetcher.close] *)
Definition fetcher_close (self : DailyFetcher X) : M (world X) unit :=
  for_each (_providers self)
    (fun provider =>
       (log (EvClose (name provider) (priority provider)) ;;; ext_op (close provider))%M).

End Fetcher.

(** A network provider seen through the interface. *)
Definition as_provider `{Builtins} {X} (AsyncClient : Q → HttpClient X) (self : NetProvider X)
    : Provider (net_world X) :=
  {| name := np_name (kind self);
     priority := np_priority self;
     fetch_daily := net_fetch_daily AsyncClient self;
     close := net_close self |}.

(** ** Storage ([storage/sqlite.py])

    The connection opened by each method is to the one database file, the
    [db] component of the world. *)

Definition same_key (a b : bar_row) : bool :=
  (r_symbol a =? r_symbol b)%string && (r_trade_date a =? r_trade_date b)%string.

(** [INSERT INTO daily_bars ... ON CONFLICT(symbol, trade_date) DO UPDATE SET
    open=excluded.open, ..., raw_payload=excluded.raw_payload] for one record. *)
Fixpoint upsert_row (excluded : bar_row) (table : list bar_row) : list bar_row :=
  match table with
  | [] => [excluded]
  | row :: table' =>
      if same_key row excluded then
        mk_row (r_symbol row) (r_trade_date row)
               (r_open excluded) (r_high excluded) (r_low excluded) (r_close excluded)
               (r_volume excluded) (r_turnover excluded) (r_raw_payload excluded)
        :: table'
      else row :: upsert_row excluded table'
  end.

(** The statement run for each record of a list in turn. *)
Definition executemany_upsert (records : list bar_row) (table : list bar_row) : list bar_row :=
  fold_left (fun t r => upsert_row r t) records table.

(** What SQLite does with a float given as a parameter: a NaN is bound as
    NULL, and a REAL column gives a negative zero back as 0.0; every other
    float is stored as it is. *)
Definition sql_real (x : float) : float :=
  match x with
  | S754_zero _ => S754_zero false
  | _ => x
  end.

(** The first of the columns [REAL NOT NULL] of daily_bars that the record
    would leave NULL. *)
Definition null_column (r : bar_row) : option string :=
  if is_nan (r_open r) then Some "open"
  else if is_nan (r_high r) then Some "high"
  else if is_nan (r_low r) then Some "low"
  else if is_nan (r_close r) then Some "close"
  else if is_nan (r_volume r) then Some "volume"
  else if is_nan (r_turnover r) then Some "turnover"
  else None.

(** The row that the table holds for a record. *)
Definition stored_row (r : bar_row) : bar_row :=
  mk_row (r_symbol r) (r_trade_date r)
         (sql_real (r_open r)) (sql_real (r_high r)) (sql_real (r_low r))
         (sql_real (r_close r)) (sql_real (r_volume r)) (sql_real (r_turnover r))
         (r_raw_payload r).

(** [conn.executemany(INSERT ..., records)]: the records are inserted in
    turn; the first that violates a NOT NULL constraint raises
    [sqlite3.IntegrityError]. *)
Fixpoint executemany_insert (records : list bar_row) (table : list bar_row)
    : res (list bar_row) :=
  match records with
  | [] => Ok table
  | r :: rest =>
      match null_column r with
      | Some column =>
          Raise (mk_exn IntegrityError ("NOT NULL constraint failed: daily_bars." ++ column))
      | None => executemany_insert rest (upsert_row (stored_row r) table)
      end
  end.

Section Storage.
Context `{Builtins} {X : Type}.

Definition record_of_bar (bar : ProviderResult) : bar_row :=
  mk_row (PR.symbol bar) (isoformat (PR.trade_date bar))
         (PR.open bar) (PR.high bar) (PR.low bar) (PR.close bar)
         (PR.volume bar) (PR.turnover bar) (json_dumps (PR.raw bar)).

(** [with conn:] commits the transaction when [executemany] returns and
    rolls it back when it raises: the database is then as it was.
    [EvUpsertBars] records a committed batch. *)
Definition _upsert_daily_bars_sync (records : list bar_row) : M (world X) unit :=
  fun w =>
    match executemany_insert records (daily_bars (db w)) with
    | Ok table =>
        (Ok tt,
         mk_world (ext w) (mk_db (securities (db w)) table)
                  (trace w ++ [EvUpsertBars records]))
    | Raise e => (Raise e, w)
    end.

Definition upsert_daily_bars (bars : list ProviderResult) : M (world X) unit :=
  let records := map record_of_bar bars in
  match records with
  | [] => ret tt
  | _ => _upsert_daily_bars_sync records
  end.

(** [SELECT symbol FROM securities ORDER BY symbol] *)
Definition list_tracked_symbols : M (world X) (list string) :=
  (log EvSelectSymbols ;;;
   fun w => (Ok (sorted_by String.ltb (securities (db w))), w))%M.

(** [SELECT trade_date FROM daily_bars WHERE symbol = ?], as a set. *)
Definition _existing_dates_sync (symbol : string) : M (world X) (gset string) :=
  (log (EvSelectDates symbol) ;;;
   fun w =>
     (Ok (list_to_set
            (map r_trade_date
                 (filter (fun row => r_symbol row = symbol) (daily_bars (db w))))),
      w))%M.

Definition missing_daily_dates (symbol : string) (dates : list date) : M (world X) (list date) :=
  (existing <- _existing_dates_sync symbol ;;
   ret (filter (fun trade_date => isoformat trade_date ∉ existing) dates))%M.

End Storage.

(** ** The schedulers ([scheduler/initializer.py], [scheduler/daily_update.py]) *)

(** The loop [while cursor <= end] with [n] days left to visit. *)
Fixpoint weekdays_loop (n : nat) (cursor : date) (calendar : list date) : res (list date) :=
  match n with
  | O => Ok calendar
  | S n' =>
      let calendar := if (weekday cursor <? 5)%Z then calendar ++ [cursor] else calendar in
      if (MAXORDINAL <? toordinal cursor + 1)%Z
      then Raise (mk_exn OverflowError "date value out of range")
      else weekdays_loop n' (mk_date (toordinal cursor + 1)) calendar
  end.

Definition _calendar_from_weekdays (start end_ : date) : res (list date) :=
  weekdays_loop (Z.to_nat (toordinal end_ - toordinal start + 1)) start [].

Section Scheduler.
Context `{Builtins} {X : Type}.
Variable settings : Settings.

Definition _calendar_from_file (lines : list string) (start end_ : date) : list date :=
  fold_left
    (fun dates line =>
       let line := str_strip line in
       if (line =? "")%string then dates
       else
         match strptime_Ymd line with
         | None => dates
         | Some n =>
             let current := mk_date n in
             if date_le start current && date_le current end_ then dates ++ [current]
             else dates
         end)
    lines [].

Definition load_trading_calendar (start end_ : date) : res (list date) :=
  match calendar_file settings with
  | Some lines => Ok (_calendar_from_file lines start end_)
  | None => _calendar_from_weekdays start end_
  end.

(** The inner loop of [run_initial_load]: one fetch per calendar day. *)
Fixpoint collect_bars (fetcher : DailyFetcher X) (symbol : string) (calendar : list date)
    (bars : list ProviderResult) : M (world X) (list ProviderResult) :=
  match calendar with
  | [] => ret bars
  | trade_date :: rest =>
      (result <- fetch fetcher symbol trade_date ;;
       match result with
       | Some bar => collect_bars fetcher symbol rest (bars ++ [bar])
       | None => collect_bars fetcher symbol rest bars
       end)%M
  end.

Definition run_initial_load (fetcher : DailyFetcher X) (symbols : list string)
    (start end_ : date) : M (world X) unit :=
  (calendar <- lift (load_trading_calendar start end_) ;;
   for_each symbols
     (fun symbol =>
        bars <- collect_bars fetcher symbol calendar [] ;;
        match bars with
        | [] => ret tt
        | _ => upsert_daily_bars bars
        end))%M.

(** [result[symbol] = value] on a dict, which keeps insertion order. *)
Fixpoint dict_set {V} (k : string) (v : V) (d : list (string * V)) : list (string * V) :=
  match d with
  | [] => [(k, v)]
  | (k', v') :: d' => if (k =? k')%string then (k, v) :: d' else (k', v') :: dict_set k v d'
  end.

Fixpoint compute_missing_loop (symbols : list string) (trade_date : date)
    (result : list (string * bool)) : M (world X) (list (string * bool)) :=
  match symbols with
  | [] => ret result
  | symbol :: rest =>
      (missing <- missing_daily_dates symbol [trade_date] ;;
       compute_missing_loop rest trade_date
         (dict_set symbol (match missing with [] => false | _ => true end) result))%M
  end.

Definition _compute_missing (symbols : list string) (trade_date : date)
    : M (world X) (list (string * bool)) :=
  compute_missing_loop symbols trade_date [].

Definition run_daily_update (fetcher : DailyFetcher X) (trade_date : date)
    (symbols : option (list string)) : M (world X) unit :=
  (symbols <- match symbols with
              | None => list_tracked_symbols
              | Some l => ret l
              end ;;
   missing_map <- _compute_missing symbols trade_date ;;
   for_each missing_map
     (fun '(symbol, should_fetch) =>
        if negb should_fetch then ret tt
        else
          bar <- fetch fetcher symbol trade_date ;;
          match bar with
          | Some b => upsert_daily_bars [b]
          | None => ret tt
          end))%M.

End Scheduler.

(** ** The tables securities and adjustment_factors ([storage/sqlite.py])

    The two other upserts act on a table of their own; each is taken as a
    function of the table before.  Column [symbol] of
    table securities is what [securities] of the database holds. *)

Module Sec.
Record t := mk {
  symbol : string;
  name : string;
  asset_type : string;
  listed_date : option date;
  delisted_date : option date
}.
End Sec.
Abbreviation Security := Sec.t.

Record security_row := mk_security_row {
  s_symbol : string;
  s_name : string;
  s_asset_type : string;
  s_listed_date : option string;
  s_delisted_date : option string
}.

Record factor_row := mk_factor_row {
  f_symbol : string;
  f_trade_date : string;
  f_factor : float
}.

(** [INSERT ... ON CONFLICT(key) DO UPDATE SET column=excluded.column, ...]
    for one record: [set_columns row excluded] is the row after the update. *)
Fixpoint keyed_upsert {R K} `{EqDecision K} (key : R → K) (set_columns : R → R → R)
    (excluded : R) (table : list R) : list R :=
  match table with
  | [] => [excluded]
  | row :: table' =>
      if decide (key row = key excluded) then set_columns row excluded :: table'
      else row :: keyed_upsert key set_columns excluded table'
  end.

Definition security_record (security : Security) : security_row :=
  mk_security_row (Sec.symbol security) (Sec.name security) (Sec.asset_type security)
    (option_map isoformat (Sec.listed_date security))
    (option_map isoformat (Sec.delisted_date security)).

Definition upsert_security_row : security_row → list security_row → list security_row :=
  keyed_upsert s_symbol
    (fun row excluded =>
       mk_security_row (s_symbol row) (s_name excluded) (s_asset_type excluded)
                       (s_listed_date excluded) (s_delisted_date excluded)).

Definition _upsert_securities_sync (records : list security_row) (table : list security_row)
    : list security_row :=
  fold_left (fun t r => upsert_security_row r t) records table.

Definition upsert_securities (securities : list Security) (table : list security_row)
    : list security_row :=
  let records := map security_record securities in
  match records with
  | [] => table
  | _ => _upsert_securities_sync records table
  end.

Definition factor_key (r : factor_row) : string * string := (f_symbol r, f_trade_date r).

Definition upsert_factor_row : factor_row → list factor_row → list factor_row :=
  keyed_upsert factor_key
    (fun row excluded => mk_factor_row (f_symbol row) (f_trade_date row) (f_factor excluded)).

(** The row that the table holds for a record. *)
Definition stored_factor (r : factor_row) : factor_row :=
  mk_factor_row (f_symbol r) (f_trade_date r) (sql_real (f_factor r)).

(** [conn.executemany(INSERT ..., records)] on adjustment_factors: a NaN
    factor is bound as NULL and violates [factor REAL NOT NULL]. *)
Fixpoint executemany_insert_factors (records : list factor_row) (table : list factor_row)
    : res (list factor_row) :=
  match records with
  | [] => Ok table
  | r :: rest =>
      if is_nan (f_factor r)
      then Raise (mk_exn IntegrityError
                    "NOT NULL constraint failed: adjustment_factors.factor")
      else executemany_insert_factors rest (upsert_factor_row (stored_factor r) table)
  end.

(** The table after the transaction, or the exception that rolled it back,
    the table then being as it was. *)
Definition _upsert_adjustment_factors_sync (records : list factor_row) (table : list factor_row)
    : res (list factor_row) :=
  executemany_insert_factors records table.

Definition upsert_adjustment_factors (factors : list (string * date * float))
    (table : list factor_row) : res (list factor_row) :=
  let records :=
    map (fun '(symbol, trade_date, value) => mk_factor_row symbol (isoformat trade_date) value)
        factors in
  match records with
  | [] => Ok table
  | _ => _upsert_adjustment_factors_sync records table
  end.

(** ** Vocabulary of the statements *)

(** [m] is a greatest (least) item of [l] for the order of floats. *)
Definition is_maximum (m : float) (l : list float) : Prop :=
  In m l ∧ Forall (fun y => float_le y m = true) l.
Definition is_minimum (m : float) (l : list float) : Prop :=
  In m l ∧ Forall (fun y => float_le m y = true) l.

(** None of the four prices of a bar is NaN. *)
Definition nan_free (b : ProviderResult) : Prop :=
  is_nan (PR.open b) = false ∧ is_nan (PR.high b) = false ∧
  is_nan (PR.low b) = false ∧ is_nan (PR.close b) = false.

(** A provider misses when it returns [None] or raises an [Exception]. *)
Definition is_miss (o : res (option ProviderResult)) : Prop :=
  o = Ok None ∨ ∃ e, o = Raise e ∧ isinstance e [Exception] = true.

(** Asked in turn from the outside world [x], every provider of the list
    misses, and the outside world is then [x']. *)
Inductive all_miss {X} (symbol : string) (trade_date : date)
    : list (Provider X) → X → X → Prop :=
| all_miss_nil x : all_miss symbol trade_date [] x x
| all_miss_cons p ps x x1 x2 o :
    fetch_daily p symbol trade_date x = (o, x1) →
    is_miss o →
    all_miss symbol trade_date ps x1 x2 →
    all_miss symbol trade_date (p :: ps) x x2.

(** The trace of asking each provider of the list once. *)
Definition consulted {X} (symbol : string) (trade_date : date) (ps : list (Provider X))
    : list event :=
  map (fun p => EvFetchDaily (name p) (priority p) symbol trade_date) ps.

(** The trace of closing each provider of the list once. *)
Definition closed {X} (ps : list (Provider X)) : list event :=
  map (fun p => EvClose (name p) (priority p)) ps.

(** The primary key of a row, and the constraint that it is one. *)
Definition row_key (r : bar_row) : string * string := (r_symbol r, r_trade_date r).

(** The table holds a row for the symbol and the day. *)
Definition stored (table : list bar_row) (symbol : string) (d : date) : bool :=
  existsb (fun row => (r_symbol row =? symbol)%string && (r_trade_date row =? isoformat d)%string)
          table.

(** One of the six numbers of the bar is NaN. *)
Definition has_nan (bar : ProviderResult) : bool :=
  is_nan (PR.open bar) || is_nan (PR.high bar) || is_nan (PR.low bar)
  || is_nan (PR.close bar) || is_nan (PR.volume bar) || is_nan (PR.turnover bar).

(** The row that the table holds for a bar. *)
Definition stored_record `{Builtins} (bar : ProviderResult) : bar_row :=
  stored_row (record_of_bar bar).

(** [x == y] on floats. *)
Definition float_eq (x y : float) : bool := SFeqb x y.

(** The column holds the number it was given: what SQLite gives back for
    it, which is equal to it as a float. *)
Definition holds_number (column given : float) : Prop :=
  column = sql_real given ∧ float_eq column given = true.


(** Closed in turn from the outside world [x], every provider of the list
    returns from its [close], and the outside world is then [x']. *)
Inductive closes_ok {X} : list (Provider X) → X → X → Prop :=
| closes_ok_nil x : closes_ok [] x x
| closes_ok_cons p ps x x1 x2 :
    close p x = (Ok tt, x1) →
    closes_ok ps x1 x2 →
    closes_ok (p :: ps) x x2.

(** The delay slept after the failure of attempt [i]. *)
Definition backoff (base_delay : Q) (i : Z) : Q := (base_delay * inject_Z (2 ^ (i - 1)))%Q.

(** The trace of attempts numbered from [attempt] on that fail with the
    given exceptions, with a sleep after each but attempt [attempts]. *)
Fixpoint failed_attempts (attempts : Z) (base_delay : Q) (attempt : Z) (failures : list exn)
    : list net_event :=
  match failures with
  | [] => []
  | e :: rest =>
      EvAttempt attempt (Some e)
      :: (if (attempt <? attempts)%Z then [EvSleep (backoff base_delay attempt)] else [])
      ++ failed_attempts attempts base_delay (attempt + 1) rest
  end.





(** An operation that fails with the same exception each time. *)
Definition always_failing (e : exn) : unit → res json * unit := fun x => (Raise e, x).

(** The calls of [DailyFetcher.fetch] for a symbol and the queries of the
    stored dates of a symbol, as a trace shows them. *)
Definition is_fetch_of (symbol : string) (ev : event) : bool :=
  match ev with
  | EvFetch s _ => (s =? symbol)%string
  | _ => false
  end.

Definition is_check_of (symbol : string) (ev : event) : bool :=
  match ev with
  | EvSelectDates s => (s =? symbol)%string
  | _ => false
  end.

Definition count_fetches (symbol : string) (tr : list event) : nat :=
  length (List.filter (is_fetch_of symbol) tr).

Definition count_checks (symbol : string) (tr : list event) : nat :=
  length (List.filter (is_check_of symbol) tr).

(** The batches written to table daily_bars, as a trace shows them. *)
Definition writes (tr : list event) : list (list bar_row) :=
  omap (fun ev => match ev with EvUpsertBars records => Some records | _ => None end) tr.

(** An instance of the library functions for closed examples; every
    statement below holds for all instances. *)
Definition example_builtins : Builtins :=
  {| float_of_str := fun _ => None;
     json_dumps := fun _ => "{}";
     str_strip := fun s => s;
     strptime_Ymd := fun _ => None |}.

(** A provider that answers every request with the same outcome. *)
Definition constant_provider (nm : string) (prio : Z) (outcome : res (option ProviderResult))
    : Provider unit :=
  {| name := nm;
     priority := prio;
     fetch_daily := fun _ _ x => (outcome, x);
     close := fun x => (Ok tt, x) |}.

(** A provider whose [close] raises. *)
Definition failing_close_provider (nm : string) (prio : Z) (e : exn) : Provider unit :=
  {| name := nm;
     priority := prio;
     fetch_daily := fun _ _ x => (Ok None, x);
     close := fun x => (Raise e, x) |}.

(** A provider that has a bar for the listed days and none for the others. *)
Definition calendar_provider (nm : string) (prio : Z) (days : list date) : Provider unit :=
  {| name := nm;
     priority := prio;
     fetch_daily := fun symbol d x =>
       (Ok (if bool_decide (d ∈ days)
            then Some (PR.mk symbol d (float_of_Z 10) (float_of_Z 11) (float_of_Z 9)
                             (float_of_Z 10) (float_of_Z 100) (float_of_Z 1000) JNull)
            else None), x);
     close := fun x => (Ok tt, x) |}.

Definition example_settings : Settings :=
  {| database_path := "ashare.sqlite3";
     qq_endpoint := "https://stockapp.finance.qq.com/mstat/appStockRank/AppStockRank.php";
     eastmoney_endpoint := "https://push2.eastmoney.com/api/qt/stock/kline/get";
     http_timeout := 10;
     calendar_file := None;
     max_requests_per_second := 5;
     retry_attempts := 3;
     retry_base_delay := 1 # 2 |}.

(** A client whose every GET answers with the same JSON body. *)
Definition canned_client (payload : json) : HttpClient unit :=
  {| get_json := fun _ _ _ x => (Ok payload, x);
     aclose := fun x => (Ok tt, x) |}.

(** A QQ body with the four prices and a null volume. *)
Definition qq_payload_null_volume : json :=
  JDict [("data",
          JDict [("open", JFloat (float_of_Z 10)); ("high", JFloat (float_of_Z 11));
                 ("low", JFloat (float_of_Z 9)); ("close", JFloat (float_of_Z 10));
                 ("volume", JNull)])].

(** A QQ body without a close price. *)
Definition qq_payload_no_close : json :=
  JDict [("data",
          JDict [("open", JFloat (float_of_Z 10)); ("high", JFloat (float_of_Z 11));
                 ("low", JFloat (float_of_Z 9)); ("volume", JInt 100)])].

Definition sample_bar (o h l c : float) : ProviderResult :=
  PR.mk "000001" (date_of_ymd 2024 1 2) o h l c (float_of_Z 100) (float_of_Z 1000) JNull.

Definition empty_world : world unit := mk_world tt (mk_db [] []) [].

(** ** Vocabulary of the further statements *)

(** From the outside world [x] the operation fails with the listed
    exceptions in turn, each of the classes that the wrapper retries, and
    leaves the outside world [x']. *)
Inductive fails_with {X A} (exceptions : list exc_class) (func : X → res A * X)
    : list exn → X → X → Prop :=
| fails_with_nil x : fails_with exceptions func [] x x
| fails_with_cons e es x x1 x2 :
    func x = (Raise e, x1) →
    isinstance e exceptions = true →
    fails_with exceptions func es x1 x2 →
    fails_with exceptions func (e :: es) x x2.

Definition is_attempt (ev : net_event) : bool :=
  match ev with EvAttempt _ _ => true | _ => false end.
Definition is_sleep (ev : net_event) : bool :=
  match ev with EvSleep _ => true | _ => false end.
Definition is_acquire (ev : net_event) : bool :=
  match ev with EvAcquire => true | _ => false end.

Definition count_attempts (tr : list net_event) : nat := length (List.filter is_attempt tr).
Definition count_sleeps (tr : list net_event) : nat := length (List.filter is_sleep tr).
Definition count_acquires (tr : list net_event) : nat := length (List.filter is_acquire tr).

(** An event of the retry loop with the given bounds: an attempt numbered
    in 1..attempts, or a sleep of the delay that follows an attempt that is
    not the last. *)
Definition retry_event (attempts : Z) (base_delay : Q) (ev : net_event) : Prop :=
  match ev with
  | EvAttempt i _ => (1 ≤ i ≤ attempts)%Z
  | EvSleep d => ∃ i, (1 ≤ i < attempts)%Z ∧ d = backoff base_delay i
  | EvAcquire => False
  end.

(** The trace of failures that are each followed by a sleep and a further
    attempt: attempt [i] is followed by the sleep of [base_delay * 2^(i-1)]. *)
Fixpoint retried (base_delay : Q) (attempt : Z) (failures : list exn) : list net_event :=
  match failures with
  | [] => []
  | e :: rest =>
      EvAttempt attempt (Some e) :: EvSleep (backoff base_delay attempt)
      :: retried base_delay (attempt + 1) rest
  end.

(** The queries of a trace: the SELECTs of the storage. *)
Definition is_select (ev : event) : bool :=
  match ev with
  | EvSelectSymbols | EvSelectDates _ => true
  | _ => false
  end.

(** The calls of [DailyFetcher.fetch], in order. *)
Definition fetches (tr : list event) : list (string * date) :=
  omap (fun ev => match ev with EvFetch s d => Some (s, d) | _ => None end) tr.

(** A QQ body with the four prices, a volume and a turnover. *)
Definition qq_payload_full : json :=
  JDict [("data",
          JDict [("open", JFloat (float_of_Z 10)); ("high", JFloat (float_of_Z 11));
                 ("low", JFloat (float_of_Z 9)); ("close", JFloat (float_of_Z 10));
                 ("volume", JInt 100); ("turnover", JInt 1000)])].

(** An operation that fails with [e] until its counter reaches [k], then
    returns the counter. *)
Definition fails_until (k : nat) (e : exn) : nat → res nat * nat :=
  fun n => if (n <? k)%nat then (Raise e, S n) else (Ok n, S n).

(** The row of daily_bars after the update of a conflicting insert: the key
    stays, every other column is the one of the inserted record. *)
Definition set_bar_columns (row excluded : bar_row) : bar_row :=
  mk_row (r_symbol row) (r_trade_date row)
         (r_open excluded) (r_high excluded) (r_low excluded) (r_close excluded)
         (r_volume excluded) (r_turnover excluded) (r_raw_payload excluded).

(** The key of the row that a bar is stored in. *)
Definition bar_key (bar : ProviderResult) : string * string :=
  (PR.symbol bar, isoformat (PR.trade_date bar)).

(** The bars that [DailyFetcher.fetch] answered with, in order. *)
Definition fetched_bars (tr : list event) : list ProviderResult :=
  omap (fun ev => match ev with EvFetched _ _ (Some bar) => Some bar | _ => None end) tr.

(** The table has a row under the key of the bar. *)
Definition bar_stored (table : list bar_row) (bar : ProviderResult) : Prop :=
  stored table (PR.symbol bar) (PR.trade_date bar) = true.

(** Every day of the calendar for every symbol, symbol by symbol. *)
Definition all_days (symbols : list string) (calendar : list date) : list (string * date) :=
  flat_map (fun symbol => map (pair symbol) calendar) symbols.

(** ** Proof tactics *)

(** One step of an [async] body that asks a provider. *)
Ltac ask_provider := unfold bind, log, ext_op; simpl.

(** * Part II: properties *)

(** ** The order of floats *)

Lemma SFcompare_nan_l x y : is_nan x = true → SFcompare x y = None.
Proof. by destruct x, y. Qed.

Lemma SFcompare_nan_r x y : is_nan y = true → SFcompare x y = None.
Proof. by destruct x, y. Qed.

Lemma SFcompare_total x y :
  is_nan x = false → is_nan y = false → is_Some (SFcompare x y).
Proof. destruct x, y; simpl; intros; try discriminate; eauto. Qed.

Lemma SFcompare_Some x y c :
  SFcompare x y = Some c → is_nan x = false ∧ is_nan y = false.
Proof. destruct x, y; simpl; intros; try discriminate; eauto. Qed.

Lemma SFcompare_antisym x y c :
  SFcompare x y = Some c → SFcompare y x = Some (CompOpp c).
Proof.
  destruct x as [sx|sx| |sx mx ex], y as [sy|sy| |sy my ey]; simpl;
    intros Hc; try discriminate; injection Hc as <-;
    try (by destruct sx); try (by destruct sy); try (by destruct sx, sy).
  f_equal. change (Pos.compare_cont Eq ?a ?b) with (Pos.compare a b).
  destruct sx, sy; simpl; try done;
    rewrite (Z.compare_antisym ex ey), (Pos.compare_antisym mx my);
    destruct (ex ?= ey)%Z, (mx ?= my)%positive; done.
Qed.

Lemma finite_compare_trans (e1 e2 e3 : Z) (m1 m2 m3 : positive) :
  let cmp e m e' m' :=
    match (e ?= e')%Z with Lt => Lt | Gt => Gt | Eq => (m ?= m')%positive end in
  (cmp e1 m1 e2 m2 ≠ Gt → cmp e2 m2 e3 m3 ≠ Gt → cmp e1 m1 e3 m3 ≠ Gt) ∧
  (cmp e1 m1 e2 m2 ≠ Lt → cmp e2 m2 e3 m3 ≠ Lt → cmp e1 m1 e3 m3 ≠ Lt).
Proof.
  simpl.
  destruct (Z.compare_spec e1 e2), (Z.compare_spec e2 e3), (Z.compare_spec e1 e3);
    destruct (Pos.compare_spec m1 m2), (Pos.compare_spec m2 m3), (Pos.compare_spec m1 m3);
    split; intros; try congruence; try lia.
Qed.

Lemma float_le_trans x y z :
  float_le x y = true → float_le y z = true → float_le x z = true.
Proof.
  unfold float_le, SFleb.
  destruct x as [sx|sx| |sx mx ex], y as [sy|sy| |sy my ey], z as [sz|sz| |sz mz ez];
    simpl; try done;
    try (by destruct sx); try (by destruct sy); try (by destruct sz);
    try (by destruct sx, sy); try (by destruct sy, sz); try (by destruct sx, sz);
    try (by destruct sx, sy, sz).
  change (Pos.compare_cont Eq ?a ?b) with (Pos.compare a b).
  pose proof (finite_compare_trans ex ey ez mx my mz) as [HL HG]. simpl in HL, HG.
  destruct sx, sy, sz; try done.
  - destruct (ex ?= ey)%Z, (mx ?= my)%positive, (ey ?= ez)%Z, (my ?= mz)%positive,
      (ex ?= ez)%Z, (mx ?= mz)%positive; simpl in *; try done;
      try (exfalso; apply HG; congruence).
  - destruct (ex ?= ey)%Z, (mx ?= my)%positive, (ey ?= ez)%Z, (my ?= mz)%positive,
      (ex ?= ez)%Z, (mx ?= mz)%positive; simpl in *; try done;
      try (exfalso; apply HL; congruence).
Qed.

Lemma float_le_refl x : is_nan x = false → float_le x x = true.
Proof.
  unfold float_le, SFleb. destruct x as [s|s| |s m e]; simpl; try done;
    try (by destruct s).
  intros _. change (Pos.compare_cont Eq ?a ?b) with (Pos.compare a b).
  rewrite Z.compare_refl, Pos.compare_refl. by destruct s.
Qed.

Lemma float_le_not_nan x y :
  float_le x y = true → is_nan x = false ∧ is_nan y = false.
Proof.
  unfold float_le, SFleb. destruct (SFcompare x y) eqn:E; [|done].
  intros _. by eapply SFcompare_Some.
Qed.

Lemma float_gt_le x y : float_gt x y = true → float_le y x = true.
Proof.
  unfold float_gt, float_le, SFleb. destruct (SFcompare x y) as [c|] eqn:E; [|done].
  rewrite (SFcompare_antisym _ _ _ E). by destruct c.
Qed.

Lemma float_not_gt_le x y :
  is_nan x = false → is_nan y = false → float_gt x y = false → float_le x y = true.
Proof.
  intros Hx Hy. unfold float_gt, float_le, SFleb.
  destruct (SFcompare_total x y Hx Hy) as [c ->]. by destruct c.
Qed.

Lemma float_lt_le x y : float_lt x y = true → float_le x y = true.
Proof.
  unfold float_lt, float_le, SFltb, SFleb.
  destruct (SFcompare x y) as [c|]; [|done]. by destruct c.
Qed.

Lemma float_not_lt_le x y :
  is_nan x = false → is_nan y = false → float_lt x y = false → float_le y x = true.
Proof.
  intros Hx Hy. unfold float_lt, float_le, SFltb, SFleb.
  destruct (SFcompare_total x y Hx Hy) as [c E]. rewrite E.
  rewrite (SFcompare_antisym _ _ _ E). by destruct c.
Qed.

Lemma float_gt_nan_r x y : is_nan y = true → float_gt x y = false.
Proof. intros Hy. unfold float_gt. by rewrite SFcompare_nan_r. Qed.

Lemma float_lt_nan_r x y : is_nan y = true → float_lt x y = false.
Proof. intros Hy. unfold float_lt, SFltb. by rewrite SFcompare_nan_r. Qed.

(** ** The builtins [max] and [min] *)

Lemma py_max_In x rest : In (py_max x rest) (x :: rest).
Proof.
  unfold py_max. revert x. induction rest as [|y rest IH]; intros x; simpl; [by left|].
  destruct (IH (if float_gt y x then y else x)) as [<-|Hin]; [|by right; right].
  destruct (float_gt y x); [right; by left | by left].
Qed.

Lemma py_min_In x rest : In (py_min x rest) (x :: rest).
Proof.
  unfold py_min. revert x. induction rest as [|y rest IH]; intros x; simpl; [by left|].
  destruct (IH (if float_lt y x then y else x)) as [<-|Hin]; [|by right; right].
  destruct (float_lt y x); [right; by left | by left].
Qed.

(** A NaN first argument is returned as it is: nothing compares above or
    below it. *)
Lemma py_max_nan x rest : is_nan x = true → py_max x rest = x.
Proof.
  unfold py_max. intros Hx. induction rest as [|y rest IH]; simpl; [done|].
  by rewrite float_gt_nan_r.
Qed.

Lemma py_min_nan x rest : is_nan x = true → py_min x rest = x.
Proof.
  unfold py_min. intros Hx. induction rest as [|y rest IH]; simpl; [done|].
  by rewrite float_lt_nan_r.
Qed.

Lemma py_max_upper x rest :
  is_nan x = false → Forall (fun y => is_nan y = false) rest →
  Forall (fun y => float_le y (py_max x rest) = true) (x :: rest).
Proof.
  unfold py_max. intros Hx Hrest. revert x Hx.
  induction Hrest as [|y rest Hy _ IH]; intros x Hx; simpl.
  { constructor; [by apply float_le_refl | constructor]. }
  set (m := if float_gt y x then y else x).
  assert (Hm : is_nan m = false) by (unfold m; by destruct (float_gt y x)).
  assert (Hxm : float_le x m = true).
  { unfold m. destruct (float_gt y x) eqn:E; [by apply float_gt_le | by apply float_le_refl]. }
  assert (Hym : float_le y m = true).
  { unfold m. destruct (float_gt y x) eqn:E; [by apply float_le_refl | by apply float_not_gt_le]. }
  specialize (IH m Hm). inversion IH as [|? ? Hhead Htail]; subst.
  constructor; [by eapply float_le_trans | constructor; [by eapply float_le_trans | done]].
Qed.

Lemma py_min_lower x rest :
  is_nan x = false → Forall (fun y => is_nan y = false) rest →
  Forall (fun y => float_le (py_min x rest) y = true) (x :: rest).
Proof.
  unfold py_min. intros Hx Hrest. revert x Hx.
  induction Hrest as [|y rest Hy _ IH]; intros x Hx; simpl.
  { constructor; [by apply float_le_refl | constructor]. }
  set (m := if float_lt y x then y else x).
  assert (Hm : is_nan m = false) by (unfold m; by destruct (float_lt y x)).
  assert (Hxm : float_le m x = true).
  { unfold m. destruct (float_lt y x) eqn:E; [by apply float_lt_le | by apply float_le_refl]. }
  assert (Hym : float_le m y = true).
  { unfold m. destruct (float_lt y x) eqn:E; [by apply float_le_refl | by apply float_not_lt_le]. }
  specialize (IH m Hm). inversion IH as [|? ? Hhead Htail]; subst.
  constructor; [by eapply float_le_trans | constructor; [by eapply float_le_trans | done]].
Qed.

(** ** Normalization *)

(** What [_clean] leaves of a bar whose cleaned prices are free of NaN. *)
Lemma _clean_invariant (r : ProviderResult) :
  nan_free (_clean r) →
  let b := _clean r in
  (float_le (PR.low b) (PR.open b) = true ∧ float_le (PR.open b) (PR.high b) = true) ∧
  (float_le (PR.low b) (PR.close b) = true ∧ float_le (PR.close b) (PR.high b) = true) ∧
  is_maximum (PR.high b) [PR.high r; PR.open b; PR.close b] ∧
  is_minimum (PR.low b) [PR.low r; PR.open b; PR.close b].
Proof.
  unfold nan_free, _clean. cbn [PR.open PR.high PR.low PR.close].
  intros (Ho & Hh & Hl & Hc).
  set (o := float_or (PR.open r) (PR.close r)) in *.
  assert (Hrh : is_nan (PR.high r) = false).
  { destruct (is_nan (PR.high r)) eqn:E; [|done]. rewrite py_max_nan in Hh by done. congruence. }
  assert (Hrl : is_nan (PR.low r) = false).
  { destruct (is_nan (PR.low r)) eqn:E; [|done]. rewrite py_min_nan in Hl by done. congruence. }
  assert (Hrest : Forall (fun y => is_nan y = false) [o; PR.close r]) by (by repeat constructor).
  pose proof (py_max_upper _ _ Hrh Hrest) as Hmax.
  pose proof (py_min_lower _ _ Hrl Hrest) as Hmin.
  pose proof (Forall_inv (Forall_inv_tail Hmax)) as H1.
  pose proof (Forall_inv (Forall_inv_tail (Forall_inv_tail Hmax))) as H2.
  pose proof (Forall_inv (Forall_inv_tail Hmin)) as H3.
  pose proof (Forall_inv (Forall_inv_tail (Forall_inv_tail Hmin))) as H4.
  repeat split; try done; [apply py_max_In | apply py_min_In].
Qed.

(** ** Sorting the providers *)

Section StableSort.
Context {A : Type} (key : A → Z).

Local Abbreviation before := (fun p q : A => (key q <? key p)%Z).

Lemma insert_by_Permutation x l : Permutation (insert_by before x l) (x :: l).
Proof.
  induction l as [|y l IH]; simpl; [done|].
  destruct (key x <? key y)%Z; [|done].
  rewrite IH. apply perm_swap.
Qed.

Lemma sorted_by_Permutation l : Permutation (sorted_by before l) l.
Proof.
  induction l as [|x l IH]; simpl; [done|].
  rewrite insert_by_Permutation. by constructor.
Qed.

Lemma insert_by_sorted x l :
  StronglySorted (fun p q => (key q ≤ key p)%Z) l →
  StronglySorted (fun p q => (key q ≤ key p)%Z) (insert_by before x l).
Proof.
  induction 1 as [|y l Hl IH Hy]; simpl.
  { repeat constructor. }
  destruct (Z.ltb_spec (key x) (key y)).
  - constructor; [done|].
    rewrite insert_by_Permutation. constructor; [lia | done].
  - constructor; [by constructor|].
    constructor; [lia|].
    eapply Forall_impl; [exact Hy|]. simpl. intros; lia.
Qed.

Lemma sorted_by_sorted l :
  StronglySorted (fun p q => (key q ≤ key p)%Z) (sorted_by before l).
Proof.
  induction l as [|x l IH]; simpl; [constructor | by apply insert_by_sorted].
Qed.

Lemma insert_by_stable k x l :
  filter (fun p => key p = k) (insert_by before x l) = filter (fun p => key p = k) (x :: l).
Proof.
  induction l as [|y l IH]; simpl; [done|].
  destruct (Z.ltb_spec (key x) (key y)); [|done].
  rewrite !filter_cons, IH, !filter_cons.
  destruct (decide (key y = k)), (decide (key x = k)); try done. lia.
Qed.

Lemma sorted_by_stable k l :
  filter (fun p => key p = k) (sorted_by before l) = filter (fun p => key p = k) l.
Proof.
  induction l as [|x l IH]; simpl; [done|].
  by rewrite insert_by_stable, !filter_cons, IH.
Qed.

End StableSort.

(** ** The fetcher *)

Section FetcherFacts.
Context {X : Type}.
Implicit Types (ps l : list (Provider X)) (p : Provider X) (w : world X).

Lemma fetch_loop_hit symbol d l1 p l2 r x x1 x2 dbs t :
  all_miss symbol d l1 x x1 →
  fetch_daily p symbol d x1 = (Ok (Some r), x2) →
  fetch_loop (l1 ++ p :: l2) symbol d (mk_world x dbs t)
  = (Ok (Some (_clean r)), mk_world x2 dbs (t ++ consulted symbol d (l1 ++ [p]))).
Proof.
  intros Hmiss Hp. revert t.
  induction Hmiss as [x|q qs x xa xb o Hq Ho _ IH]; intros t; simpl.
  - ask_provider. by rewrite Hp.
  - ask_provider. rewrite Hq.
    destruct Ho as [->|(e & -> & ->)]; rewrite IH by done; by rewrite <- app_assoc.
Qed.

Lemma fetch_loop_miss symbol d ps x x1 dbs t :
  all_miss symbol d ps x x1 →
  fetch_loop ps symbol d (mk_world x dbs t)
  = (Ok None, mk_world x1 dbs (t ++ consulted symbol d ps)).
Proof.
  intros Hmiss. revert t.
  induction Hmiss as [x|q qs x xa xb o Hq Ho _ IH]; intros t; simpl.
  - by rewrite app_nil_r.
  - ask_provider. rewrite Hq.
    destruct Ho as [->|(e & -> & ->)]; rewrite IH; by rewrite <- app_assoc.
Qed.

(** An exception that is no [Exception] leaves the loop at once. *)
Lemma fetch_loop_propagates symbol d l1 p l2 e x x1 x2 dbs t :
  all_miss symbol d l1 x x1 →
  fetch_daily p symbol d x1 = (Raise e, x2) →
  isinstance e [Exception] = false →
  fetch_loop (l1 ++ p :: l2) symbol d (mk_world x dbs t)
  = (Raise e, mk_world x2 dbs (t ++ consulted symbol d (l1 ++ [p]))).
Proof.
  intros Hmiss Hp Hbase. revert t.
  induction Hmiss as [x|q qs x xa xb o Hq Ho _ IH]; intros t; simpl.
  - ask_provider. by rewrite Hp, Hbase.
  - ask_provider. rewrite Hq.
    destruct Ho as [->|(e' & -> & ->)]; rewrite IH by done; by rewrite <- app_assoc.
Qed.

(** A bar that the loop returns is the cleaned answer of one provider. *)
Lemma fetch_loop_inv symbol d ps w b w' :
  fetch_loop ps symbol d w = (Ok (Some b), w') →
  ∃ p r x x', In p ps ∧ fetch_daily p symbol d x = (Ok (Some r), x') ∧ b = _clean r.
Proof.
  revert w. induction ps as [|q qs IH]; intros w; simpl; [done|].
  ask_provider.
  destruct (fetch_daily q symbol d (ext w)) as [[[r|]|e] x'] eqn:Hq.
  - intros [= <- <-]. exists q, r, (ext w), x'. split; [by left | done].
  - intros (p & r & x & x'' & Hin & Hp & ->)%IH. exists p, r, x, x''. split; [by right | done].
  - destruct (isinstance e [Exception]); [|done].
    intros (p & r & x & x'' & Hin & Hp & ->)%IH. exists p, r, x, x''. split; [by right | done].
Qed.

Lemma fetch_unfold (f : DailyFetcher X) symbol d w :
  fetch f symbol d w =
  match fetch_loop (_providers f) symbol d (mk_world (ext w) (db w) (trace w ++ [EvFetch symbol d])) with
  | (Ok result, w') =>
      (Ok result, mk_world (ext w') (db w') (trace w' ++ [EvFetched symbol d result]))
  | (Raise e, w') => (Raise e, w')
  end.
Proof.
  unfold fetch, bind, log, ret; simpl.
  by destruct (fetch_loop _ _ _ _) as [[?|?] ?].
Qed.

End FetcherFacts.

(** C1 (amended): a bar that [DailyFetcher.fetch] returns is [_clean] of
    the answer [r] of one of its providers; when none of its four prices is
    NaN, low <= open <= high and low <= close <= high, the high is a
    greatest item of (raw high, open, close) and the low a least item of
    (raw low, open, close), open being the normalized open. *)
Theorem fetch_result_normalized {X} (fetcher : DailyFetcher X) symbol d w b w' :
  fetch fetcher symbol d w = (Ok (Some b), w') →
  nan_free b →
  (float_le (PR.low b) (PR.open b) = true ∧ float_le (PR.open b) (PR.high b) = true) ∧
  (float_le (PR.low b) (PR.close b) = true ∧ float_le (PR.close b) (PR.high b) = true) ∧
  ∃ p r x x',
    In p (_providers fetcher) ∧ fetch_daily p symbol d x = (Ok (Some r), x') ∧
    b = _clean r ∧
    PR.high b = py_max (PR.high r) [PR.open b; PR.close b] ∧
    PR.low b = py_min (PR.low r) [PR.open b; PR.close b] ∧
    is_maximum (PR.high b) [PR.high r; PR.open b; PR.close b] ∧
    is_minimum (PR.low b) [PR.low r; PR.open b; PR.close b].
Proof.
  rewrite fetch_unfold.
  destruct (fetch_loop _ _ _ _) as [[result|e] w1] eqn:Hloop; [|done].
  intros [= -> <-] Hnan.
  apply fetch_loop_inv in Hloop as (p & r & x & x' & Hin & Hp & ->).
  destruct (_clean_invariant r Hnan) as (H1 & H2 & H3 & H4).
  split; [done|]. split; [done|]. by exists p, r, x, x'.
Qed.

Lemma fetch_result_normalized_witness :
  ∃ b, nan_free b ∧ float_le (PR.low b) (PR.open b) = true ∧
       float_le (PR.open b) (PR.high b) = true.
Proof.
  pose (raw := sample_bar (float_of_Z 0) (float_of_Z 10) (float_of_Z 12) (float_of_Z 11)).
  pose (f := DailyFetcher_init [constant_provider "qq" 0 (Ok (Some raw))]).
  pose (d := date_of_ymd 2024 1 2).
  exists (_clean raw).
  assert (Hnan : nan_free (_clean raw)) by (by vm_compute).
  split; [exact Hnan|].
  refine (proj1 (fetch_result_normalized f "000001" d empty_world (_clean raw)
                   (mk_world tt (mk_db [] [])
                      [EvFetch "000001" d; EvFetchDaily "qq" 0 "000001" d;
                       EvFetched "000001" d (Some (_clean raw))]) _ Hnan)).
  vm_compute. reflexivity.
Defined.

(** C1, as stated, fails on a NaN: a provider answers with open = NaN (the
    text "nan" parses with [float]), which is truthy and stays; [max] and
    [min] skip it, and low <= open is false. *)
Lemma fetch_nan_open_unordered :
  let raw := sample_bar S754_nan (float_of_Z 11) (float_of_Z 9) (float_of_Z 10) in
  let f := DailyFetcher_init [constant_provider "eastmoney" 0 (Ok (Some raw))] in
  ∃ b w', fetch f "000001" (date_of_ymd 2024 1 2) empty_world = (Ok (Some b), w') ∧
          float_le (PR.low b) (PR.open b) = false.
Proof. eexists _, _. split; vm_compute; reflexivity. Qed.

(** The open that enters the recomputed low is the normalized one: with a
    raw open of 0 the low stays at the raw low, above the raw open. *)
Example _clean_low_uses_normalized_open :
  let r := sample_bar (float_of_Z 0) (float_of_Z 11) (float_of_Z 9) (float_of_Z 10) in
  PR.low (_clean r) = float_of_Z 9 ∧
  py_min (PR.low r) [PR.open r; PR.close r] = float_of_Z 0.
Proof. vm_compute. split; reflexivity. Qed.

(** C9: when the open of a result is falsy (a zero of either sign),
    [_clean] sets open to close, and the high and the low are recomputed
    with that open. *)
Theorem _clean_falsy_open (r : ProviderResult) :
  float_truthy (PR.open r) = false →
  PR.open (_clean r) = PR.close r ∧
  PR.open (_clean r) = PR.close (_clean r) ∧
  PR.high (_clean r) = py_max (PR.high r) [PR.close r; PR.close r] ∧
  PR.low (_clean r) = py_min (PR.low r) [PR.close r; PR.close r].
Proof.
  intros Hfalsy. unfold _clean; cbn [PR.open PR.high PR.low PR.close].
  unfold float_or. by rewrite Hfalsy.
Qed.

Lemma _clean_falsy_open_witness :
  let r := sample_bar (S754_zero true) (float_of_Z 10) (float_of_Z 12) (float_of_Z 11) in
  PR.open (_clean r) = float_of_Z 11 ∧ PR.open (_clean r) = PR.close (_clean r).
Proof.
  intros r.
  destruct (_clean_falsy_open r eq_refl) as (H1 & H2 & _).
  split; [exact H1 | exact H2].
Defined.

(** C2: the fetcher holds its providers by descending priority, ties in
    construction order; [fetch] returns the cleaned bar of the first
    provider that returns one, having asked exactly the providers up to it;
    a provider that raises an [Exception] or returns [None] is passed over;
    when all do so, [fetch] returns [None] and does not raise. *)
Theorem fetch_first_success {X} (providers : list (Provider X)) symbol d (w : world X) :
  let f := DailyFetcher_init providers in
  (Permutation (_providers f) providers ∧
   StronglySorted (fun p q => (priority q ≤ priority p)%Z) (_providers f) ∧
   ∀ k, filter (fun p => priority p = k) (_providers f)
        = filter (fun p => priority p = k) providers) ∧
  (∀ l1 p l2 r x1 x2,
     _providers f = l1 ++ p :: l2 →
     all_miss symbol d l1 (ext w) x1 →
     fetch_daily p symbol d x1 = (Ok (Some r), x2) →
     fetch f symbol d w
     = (Ok (Some (_clean r)),
        mk_world x2 (db w)
          (trace w ++ EvFetch symbol d :: consulted symbol d (l1 ++ [p])
                   ++ [EvFetched symbol d (Some (_clean r))]))) ∧
  (∀ x1,
     all_miss symbol d (_providers f) (ext w) x1 →
     fetch f symbol d w
     = (Ok None,
        mk_world x1 (db w)
          (trace w ++ EvFetch symbol d :: consulted symbol d (_providers f)
                   ++ [EvFetched symbol d None]))).
Proof.
  intros f. split; [|split].
  - split; [apply (sorted_by_Permutation priority)|].
    split; [apply (sorted_by_sorted priority) | intros k; apply (sorted_by_stable priority)].
  - intros l1 p l2 r x1 x2 Hps Hmiss Hp.
    rewrite fetch_unfold, Hps, (fetch_loop_hit _ _ _ _ _ _ _ _ _ _ _ Hmiss Hp). simpl.
    by rewrite <- !app_assoc.
  - intros x1 Hmiss.
    rewrite fetch_unfold, (fetch_loop_miss _ _ _ _ _ _ _ Hmiss). simpl.
    by rewrite <- !app_assoc.
Qed.

(** Provider A (priority 10) fails, provider B (priority 5) succeeds: the
    bar is B's. *)
Lemma fetch_first_success_witness :
  let bar := sample_bar (float_of_Z 10) (float_of_Z 11) (float_of_Z 9) (float_of_Z 10) in
  let A := constant_provider "A" 10 (Raise (mk_exn HTTPError "503")) in
  let B := constant_provider "B" 5 (Ok (Some bar)) in
  let d := date_of_ymd 2024 1 2 in
  fetch (DailyFetcher_init [B; A]) "000001" d empty_world
  = (Ok (Some (_clean bar)),
     mk_world tt (mk_db [] [])
       [EvFetch "000001" d; EvFetchDaily "A" 10 "000001" d; EvFetchDaily "B" 5 "000001" d;
        EvFetched "000001" d (Some (_clean bar))]).
Proof.
  intros bar A B d.
  refine (proj1 (proj2 (fetch_first_success [B; A] "000001" d empty_world))
            [A] B [] bar tt tt eq_refl _ eq_refl).
  eapply all_miss_cons; [reflexivity | | constructor].
  right. eexists. split; reflexivity.
Defined.

(** The loop of [DailyFetcher.close] stops at the first [close] that
    raises, and raises what it raised. *)
Lemma close_loop_raises {X} (l1 l2 : list (Provider X)) (p : Provider X) (e : exn)
    (x x1 x2 : X) dbs t :
  closes_ok l1 x x1 →
  close p x1 = (Raise e, x2) →
  for_each (l1 ++ p :: l2)
    (fun provider =>
       (log (EvClose (name provider) (priority provider)) ;;; ext_op (close provider))%M)
    (mk_world x dbs t)
  = (Raise e, mk_world x2 dbs (t ++ closed (l1 ++ [p]))).
Proof.
  intros Hl1 Hp. revert t. induction Hl1 as [x|q qs x x' x1 Hq _ IH]; intros t; simpl.
  - unfold bind at 1. unfold bind at 1. unfold log, ext_op; simpl. by rewrite Hp.
  - unfold bind at 1. unfold bind at 1. unfold log, ext_op; simpl. rewrite Hq.
    rewrite (IH Hp). by rewrite <- app_assoc.
Qed.

(** When every [close] returns, the loop closes all the providers. *)
Lemma close_loop_returns {X} (ps : list (Provider X)) (x x' : X) dbs t :
  closes_ok ps x x' →
  for_each ps
    (fun provider =>
       (log (EvClose (name provider) (priority provider)) ;;; ext_op (close provider))%M)
    (mk_world x dbs t)
  = (Ok tt, mk_world x' dbs (t ++ closed ps)).
Proof.
  intros Hps. revert t. induction Hps as [x|q qs x x1 x' Hq _ IH]; intros t; simpl.
  - by rewrite app_nil_r.
  - unfold bind at 1. unfold bind at 1. unfold log, ext_op; simpl. rewrite Hq.
    rewrite IH. by rewrite <- app_assoc.
Qed.

(** C8 (amended): [DailyFetcher.close] closes the providers in order; when
    the [close] of one raises, those before it having returned, the
    exception leaves [DailyFetcher.close] and the providers after that one
    are not closed; when every [close] returns, all are closed and
    [DailyFetcher.close] returns.  Nothing else can happen. *)
Theorem fetcher_close_until_failure {X} (self : DailyFetcher X) (w : world X) :
  (∀ l1 p l2 e x1 x2,
     _providers self = l1 ++ p :: l2 →
     closes_ok l1 (ext w) x1 →
     close p x1 = (Raise e, x2) →
     fetcher_close self w
     = (Raise e, mk_world x2 (db w) (trace w ++ closed (l1 ++ [p])))) ∧
  (∀ x',
     closes_ok (_providers self) (ext w) x' →
     fetcher_close self w
     = (Ok tt, mk_world x' (db w) (trace w ++ closed (_providers self)))) ∧
  match fetcher_close self w with
  | (Ok _, w') =>
      closes_ok (_providers self) (ext w) (ext w') ∧
      trace w' = trace w ++ closed (_providers self)
  | (Raise e, w') =>
      ∃ l1 p l2 x,
        _providers self = l1 ++ p :: l2 ∧
        closes_ok l1 (ext w) x ∧ close p x = (Raise e, ext w') ∧
        trace w' = trace w ++ closed (l1 ++ [p])
  end.
Proof.
  split; [|split].
  { intros l1 p l2 e x1 x2 Hps Hl1 Hp. unfold fetcher_close. rewrite Hps.
    destruct w as [x dbs t]. by apply close_loop_raises with (x1 := x1). }
  { intros x' Hps. unfold fetcher_close. destruct w as [x dbs t].
    by apply close_loop_returns. }
  unfold fetcher_close. generalize (_providers self) as ps. clear self.
  intros ps. revert w. induction ps as [|q qs IH]; intros w; simpl.
  { rewrite app_nil_r. split; [constructor | done]. }
  unfold bind at 1. unfold bind at 1. unfold log, ext_op; simpl.
  destruct (close q (ext w)) as [[[]|e] x'] eqn:Hq.
  - specialize (IH (mk_world x' (db w) (trace w ++ [EvClose (name q) (priority q)]))).
    destruct (for_each qs _ _) as [[?|e] w']; simpl in IH.
    + destruct IH as [Hqs ->]. split; [by eapply closes_ok_cons | by rewrite <- app_assoc].
    + destruct IH as (l1 & p & l2 & x & -> & Hl1 & Hp & ->).
      exists (q :: l1), p, l2, x. split; [done|].
      split; [by eapply closes_ok_cons|]. split; [done | by rewrite <- app_assoc].
  - exists [], q, qs, (ext w). split; [done|]. split; [constructor|]. by rewrite Hq.
Qed.

(** C8, as stated, fails: the [close] of the first provider raises and the
    second provider is never closed. *)
Lemma fetcher_close_skips_after_failure :
  let e := mk_exn RuntimeError "close failed" in
  let A := failing_close_provider "A" 10 e in
  let B := constant_provider "B" 5 (Ok None) in
  ∃ w', fetcher_close (DailyFetcher_init [A; B]) empty_world = (Raise e, w') ∧
        ¬ In (EvClose "B" 5) (trace w').
Proof.
  eexists. split; [vm_compute; reflexivity|].
  simpl. intros [H|[]]. discriminate H.
Qed.

(** ** Storage *)

Lemma same_key_spec a b : same_key a b = true ↔ row_key a = row_key b.
Proof.
  unfold same_key, row_key. rewrite andb_true_iff, !String.eqb_eq.
  split; [by intros [-> ->] | by intros [= -> ->]].
Qed.

Lemma upsert_row_keys r t :
  map row_key (upsert_row r t)
  = if bool_decide (row_key r ∈ map row_key t) then map row_key t
    else map row_key t ++ [row_key r].
Proof.
  induction t as [|row t IH]; simpl; [done|].
  destruct (same_key row r) eqn:E.
  - apply same_key_spec in E. rewrite bool_decide_true; [done|].
    rewrite <- E. by left.
  - simpl. rewrite IH.
    assert (Hne : row_key row ≠ row_key r).
    { intros Heq. apply same_key_spec in Heq. congruence. }
    destruct (bool_decide (row_key r ∈ map row_key t)) eqn:Hin.
    + apply bool_decide_eq_true in Hin. rewrite bool_decide_true; [done | by right].
    + apply bool_decide_eq_false in Hin. rewrite bool_decide_false; [done|].
      intros [?|?]%elem_of_cons; congruence.
Qed.



Lemma filter_none {A} (P : A → Prop) `{∀ x, Decision (P x)} (l : list A) :
  Forall (fun x => ¬ P x) l → filter P l = [].
Proof.
  induction 1 as [|x l Hx _ IH]; [done|]. by rewrite filter_cons_False.
Qed.


(** The rows under the other keys are as before. *)
Lemma upsert_row_other_key r t k :
  k ≠ row_key r →
  filter (fun row => row_key row = k) (upsert_row r t) = filter (fun row => row_key row = k) t.
Proof.
  intros Hk. induction t as [|row t IH]; simpl.
  { by rewrite filter_cons_False. }
  destruct (same_key row r) eqn:E.
  - apply same_key_spec in E. rewrite !filter_cons_False; [done| |]; unfold row_key in *; simpl; congruence.
  - by rewrite !filter_cons, IH.
Qed.

Lemma executemany_upsert_other_keys records t k :
  Forall (fun r => row_key r ≠ k) records →
  filter (fun row => row_key row = k) (executemany_upsert records t)
  = filter (fun row => row_key row = k) t.
Proof.
  unfold executemany_upsert. intros Hrecords. revert t.
  induction Hrecords as [|r records Hr _ IH]; intros t; simpl; [done|].
  rewrite IH. by apply upsert_row_other_key.
Qed.


Lemma stored_spec t symbol d :
  stored t symbol d = true ↔ (symbol, isoformat d) ∈ map row_key t.
Proof.
  unfold stored. rewrite existsb_exists, list_elem_of_fmap. split.
  - intros (row & Hin & (Hs & Hd)%andb_true_iff). apply String.eqb_eq in Hs, Hd.
    exists row. split; [unfold row_key; congruence | by apply list_elem_of_In].
  - intros (row & [= Hs Hd] & Hin). exists row. split; [by apply list_elem_of_In|].
    apply andb_true_iff. by rewrite !String.eqb_eq.
Qed.

Lemma upsert_row_stored_own r t d :
  r_trade_date r = isoformat d → stored (upsert_row r t) (r_symbol r) d = true.
Proof.
  intros Hd. apply stored_spec. rewrite upsert_row_keys.
  case_bool_decide as Hin; unfold row_key in *; rewrite <- Hd; [done|].
  apply elem_of_app. right. by left.
Qed.

Lemma upsert_row_stored_mono r t symbol d :
  stored t symbol d = true → stored (upsert_row r t) symbol d = true.
Proof.
  rewrite !stored_spec, upsert_row_keys. intros Hin.
  case_bool_decide; [done | apply elem_of_app; by left].
Qed.

Lemma executemany_upsert_stored_mono records t symbol d :
  stored t symbol d = true → stored (executemany_upsert records t) symbol d = true.
Proof.
  unfold executemany_upsert. revert t.
  induction records as [|r records IH]; intros t Ht; simpl; [done|].
  by apply IH, upsert_row_stored_mono.
Qed.

Lemma executemany_upsert_stored records t r d :
  In r records → r_trade_date r = isoformat d →
  stored (executemany_upsert records t) (r_symbol r) d = true.
Proof.
  unfold executemany_upsert. revert t.
  induction records as [|r' records IH]; intros t Hin Hd; simpl; [done|].
  destruct Hin as [->|Hin]; [|by apply IH].
  by apply (executemany_upsert_stored_mono records), upsert_row_stored_own.
Qed.

Section StorageFacts.
Context `{Builtins} {X : Type}.
Implicit Types (w : world X) (bars : list ProviderResult).

Lemma null_column_has_nan (bar : ProviderResult) :
  null_column (record_of_bar bar) = None ↔ has_nan bar = false.
Proof.
  unfold null_column, has_nan. simpl.
  destruct (is_nan (PR.open bar)), (is_nan (PR.high bar)), (is_nan (PR.low bar)),
    (is_nan (PR.close bar)), (is_nan (PR.volume bar)), (is_nan (PR.turnover bar)); simpl;
    split; done.
Qed.

Lemma executemany_insert_ok bars (table : list bar_row) :
  existsb has_nan bars = false →
  executemany_insert (map record_of_bar bars) table
  = Ok (executemany_upsert (map stored_record bars) table).
Proof.
  revert table. induction bars as [|bar bars IH]; intros table; simpl; [done|].
  intros [Hbar Hbars]%orb_false_iff.
  rewrite (proj2 (null_column_has_nan bar) Hbar). by apply IH.
Qed.

Lemma executemany_insert_raises bars (table : list bar_row) :
  existsb has_nan bars = true →
  ∃ e, executemany_insert (map record_of_bar bars) table = Raise e ∧
       exn_class e = IntegrityError.
Proof.
  revert table. induction bars as [|bar bars IH]; intros table; simpl; [done|].
  destruct (null_column (record_of_bar bar)) as [column|] eqn:Hcol; [by eexists|].
  apply null_column_has_nan in Hcol. rewrite Hcol. simpl. apply IH.
Qed.

(** A batch without a NaN is written as a whole. *)
Lemma upsert_daily_bars_unfold bars w :
  existsb has_nan bars = false →
  upsert_daily_bars bars w
  = (Ok tt,
     mk_world (ext w)
       (mk_db (securities (db w))
          (executemany_upsert (map stored_record bars) (daily_bars (db w))))
       (trace w ++ match bars with [] => [] | _ => [EvUpsertBars (map record_of_bar bars)] end)).
Proof.
  intros Hbars. destruct bars as [|bar bars].
  { unfold upsert_daily_bars, ret; simpl. rewrite app_nil_r. by destruct w as [? []]. }
  unfold upsert_daily_bars, _upsert_daily_bars_sync.
  change (record_of_bar bar :: map record_of_bar bars) with (map record_of_bar (bar :: bars)).
  cbn [map]. change (record_of_bar bar :: map record_of_bar bars)
    with (map record_of_bar (bar :: bars)).
  by rewrite (executemany_insert_ok (bar :: bars)).
Qed.

(** A batch with a NaN raises, and the world is as it was. *)
Lemma upsert_daily_bars_raises bars w :
  existsb has_nan bars = true →
  ∃ e, upsert_daily_bars bars w = (Raise e, w) ∧ exn_class e = IntegrityError.
Proof.
  intros Hbars. destruct bars as [|bar bars]; [done|].
  destruct (executemany_insert_raises (bar :: bars) (daily_bars (db w)) Hbars)
    as (e & Hrun & Hclass).
  exists e. split; [|done].
  unfold upsert_daily_bars, _upsert_daily_bars_sync. cbn [map].
  change (record_of_bar bar :: map record_of_bar bars)
    with (map record_of_bar (bar :: bars)).
  by rewrite Hrun.
Qed.

Lemma upsert_daily_bars_Ok bars w r w' :
  upsert_daily_bars bars w = (r, w') →
  (r = Ok tt ↔ existsb has_nan bars = false) ∧
  (r ≠ Ok tt → w' = w ∧ ∃ e, r = Raise e ∧ exn_class e = IntegrityError).
Proof.
  destruct (existsb has_nan bars) eqn:Hbars.
  - destruct (upsert_daily_bars_raises bars w Hbars) as (e & -> & Hclass).
    intros [= <- <-]. split; [done|]. intros _. split; [done|]. by exists e.
  - rewrite upsert_daily_bars_unfold by done. intros [= <- <-]. done.
Qed.

(** Whether the write succeeds or not, the table afterwards is the table
    before with some records written: those of the batch, or none. *)
Lemma upsert_daily_bars_db bars w :
  ∃ written,
    (written = bars ∨ written = []) ∧
    db (snd (upsert_daily_bars bars w))
    = mk_db (securities (db w))
        (executemany_upsert (map stored_record written) (daily_bars (db w))) ∧
    ext (snd (upsert_daily_bars bars w)) = ext w.
Proof.
  destruct (existsb has_nan bars) eqn:Hbars.
  - destruct (upsert_daily_bars_raises bars w Hbars) as (e & -> & _).
    exists []. split; [by right|]. simpl. by destruct w as [? []].
  - rewrite upsert_daily_bars_unfold by done. exists bars. split; [by left | done].
Qed.

Lemma stored_record_key (bar : ProviderResult) :
  row_key (stored_record bar) = (PR.symbol bar, isoformat (PR.trade_date bar)).
Proof. done. Qed.

Lemma missing_daily_dates_unfold symbol (dates : list date) w :
  missing_daily_dates symbol dates w
  = (Ok (filter (fun d => stored (daily_bars (db w)) symbol d = false) dates),
     mk_world (ext w) (db w) (trace w ++ [EvSelectDates symbol])).
Proof.
  unfold missing_daily_dates, _existing_dates_sync, bind, log, ret; simpl.
  f_equal. f_equal. apply list_filter_iff. intros d.
  rewrite elem_of_list_to_set, <- not_true_iff_false, stored_spec.
  rewrite !list_elem_of_fmap. split.
  - intros Hn (row & [= Hs Hd] & Hin). apply Hn. exists row. split; [done|].
    apply list_elem_of_filter. done.
  - intros Hn (row & Hd & [Hs Hin]%list_elem_of_filter). apply Hn. exists row.
    split; [unfold row_key; congruence | done].
Qed.

End StorageFacts.

Lemma upsert_batches_stored_mono `{Builtins} {X} (later : list (list ProviderResult))
    (w : world X) symbol d :
  stored (daily_bars (db w)) symbol d = true →
  stored (daily_bars (db (fold_left (fun w' batch => snd (upsert_daily_bars batch w')) later w)))
         symbol d = true.
Proof.
  revert w. induction later as [|batch later IH]; intros w Hw; simpl; [done|].
  apply IH. destruct (upsert_daily_bars_db batch w) as (written & _ & -> & _). simpl.
  by apply executemany_upsert_stored_mono.
Qed.

(** C3: [missing_daily_dates(s, D)] returns the dates of [D], in their
    order, for which table daily_bars holds no row of [s]; once a call of
    [upsert_daily_bars] with a bar of [s] has returned, the date of the bar
    is in no later answer, whatever is written in between, with or without
    success. *)
Theorem missing_daily_dates_exact `{Builtins} {X} symbol (dates : list date) (w : world X) :
  (fst (missing_daily_dates symbol dates w)
   = Ok (filter (fun d => stored (daily_bars (db w)) symbol d = false) dates)) ∧
  (∀ res, fst (missing_daily_dates symbol dates w) = Ok res →
          sublist res dates ∧
          ∀ d, d ∈ res ↔ d ∈ dates ∧ stored (daily_bars (db w)) symbol d = false) ∧
  (∀ bars bar (later : list (list ProviderResult)) res,
     In bar bars → PR.symbol bar = symbol →
     fst (upsert_daily_bars bars w) = Ok tt →
     let w1 := snd (upsert_daily_bars bars w) in
     let w2 := fold_left (fun w' batch => snd (upsert_daily_bars batch w')) later w1 in
     fst (missing_daily_dates symbol dates w2) = Ok res →
     PR.trade_date bar ∉ res).
Proof.
  split; [by rewrite missing_daily_dates_unfold|]. split.
  - rewrite missing_daily_dates_unfold. simpl. intros res [= <-]. split.
    + apply sublist_filter.
    + intros d. by rewrite list_elem_of_filter, (and_comm (d ∈ dates)).
  - intros bars bar later res Hin Hsym Hwritten w1 w2.
    rewrite missing_daily_dates_unfold. simpl. intros [= <-].
    rewrite list_elem_of_filter. intros [Hnot _].
    assert (Hstored : stored (daily_bars (db w2)) symbol (PR.trade_date bar) = true);
      [|congruence].
    assert (H1 : stored (daily_bars (db w1)) symbol (PR.trade_date bar) = true).
    { unfold w1. destruct (upsert_daily_bars bars w) as [r w0] eqn:Hrun.
      simpl in Hwritten. subst r.
      pose proof (proj1 (proj1 (upsert_daily_bars_Ok _ _ _ _ Hrun)) eq_refl) as Hbars.
      rewrite upsert_daily_bars_unfold in Hrun by done. injection Hrun as <-.
      simpl. rewrite <- Hsym.
      apply (executemany_upsert_stored _ _ (stored_record bar)); [|done].
      by apply in_map. }
    by apply upsert_batches_stored_mono.
Qed.

Lemma missing_daily_dates_exact_witness :
  let bar := sample_bar (float_of_Z 10) (float_of_Z 11) (float_of_Z 9) (float_of_Z 10) in
  let D := [date_of_ymd 2024 1 1; date_of_ymd 2024 1 2; date_of_ymd 2024 1 3] in
  let w1 := snd (upsert_daily_bars (H := example_builtins) [bar] empty_world) in
  fst (missing_daily_dates "000001" D w1) = Ok [date_of_ymd 2024 1 1; date_of_ymd 2024 1 3] ∧
  PR.trade_date bar ∉ [date_of_ymd 2024 1 1; date_of_ymd 2024 1 3].
Proof.
  intros bar D w1.
  assert (Hres : fst (missing_daily_dates "000001" D w1)
                 = Ok [date_of_ymd 2024 1 1; date_of_ymd 2024 1 3])
    by (vm_compute; reflexivity).
  split; [exact Hres|].
  exact (proj2 (proj2 (missing_daily_dates_exact (H := example_builtins) "000001" D empty_world))
           [bar] bar [] [date_of_ymd 2024 1 1; date_of_ymd 2024 1 3]
           (or_introl eq_refl) eq_refl eq_refl Hres).
Defined.

(** A REAL column holds the number it is given, when that is no NaN. *)
Lemma sql_real_holds (x : float) : is_nan x = false → holds_number (sql_real x) x.
Proof.
  intros Hx. split; [done|]. unfold float_eq, SFeqb.
  destruct x as [s|s| |s m e]; simpl in *; try done; try (by destruct s).
  change (Pos.compare_cont Eq ?a ?b) with (Pos.compare a b).
  rewrite Z.compare_refl, Pos.compare_refl. by destruct s.
Qed.





(** A negative zero is read back as 0.0. *)
Example upsert_negative_zero_read_back :
  let bar := PR.mk "000001" (date_of_ymd 2024 1 2) (float_of_Z 10) (float_of_Z 11)
               (float_of_Z 9) (float_of_Z 10) (S754_zero true) (float_of_Z 0) JNull in
  map r_volume (daily_bars (db (snd (upsert_daily_bars (H := example_builtins) [bar]
                                       empty_world))))
  = [S754_zero false].
Proof. vm_compute. reflexivity. Qed.

(** ** Retry *)

Lemma backoff_first (b : Q) : backoff b 1 = b.
Proof.
  destruct b as [num den]. unfold backoff, Qmult. simpl.
  f_equal; [lia | by rewrite Pos.mul_1_r].
Qed.

Lemma backoff_double (b : Q) (i : Z) :
  (1 ≤ i)%Z → (backoff b i * 2)%Q = backoff b (i + 1).
Proof.
  intros Hi. unfold backoff, Qmult; simpl.
  replace (i + 1 - 1)%Z with (Z.succ (i - 1)) by lia.
  rewrite Z.pow_succ_r by lia. f_equal; [lia|].
  by rewrite !Pos.mul_1_r.
Qed.

Section RetryFacts.
Context {X A : Type}.
Variables (attempts : Z) (base_delay : Q) (exceptions : list exc_class).
Variable func : X → res A * X.
Hypothesis always_fails :
  ∀ x, ∃ e, fst (func x) = Raise e ∧ isinstance e exceptions = true.

Lemma retry_loop_S (n : nat) (attempt : Z) (delay : Q) (w : net_world X) :
  retry_loop attempts exceptions func (S n) attempt delay w
  = match func (next w) with
    | (Ok v, x) => (Ok v, mk_net x (ntrace w ++ [EvAttempt attempt None]))
    | (Raise e, x) =>
        let w1 := mk_net x (ntrace w ++ [EvAttempt attempt (Some e)]) in
        if isinstance e exceptions then
          if (attempt =? attempts)%Z then (Raise e, w1)
          else retry_loop attempts exceptions func n (attempt + 1) (delay * 2)%Q
                 (mk_net x (ntrace w1 ++ [EvSleep delay]))
        else (Raise e, w1)
    end.
Proof. reflexivity. Qed.

Lemma retry_loop_always_fails (n : nat) (attempt : Z) (w : net_world X) :
  (1 ≤ attempt)%Z → (attempt + Z.of_nat n = attempts)%Z →
  ∃ failures e x',
    length failures = S n ∧ last failures = Some e ∧
    Forall (fun e' => ∃ x, fst (func x) = Raise e') failures ∧
    retry_loop attempts exceptions func (S n) attempt (backoff base_delay attempt) w
    = (Raise e, mk_net x' (ntrace w ++ failed_attempts attempts base_delay attempt failures)).
Proof using always_fails.
  revert attempt w. induction n as [|n IH]; intros attempt w Hpos Hsum.
  - destruct (always_fails (next w)) as (e & He & Hcaught).
    exists [e], e. rewrite retry_loop_S.
    destruct (func (next w)) as [r x'] eqn:Hf. simpl in He. subst r.
    exists x'. rewrite Hcaught. simpl.
    replace (attempt =? attempts)%Z with true by lia.
    replace (attempt <? attempts)%Z with false by lia.
    repeat split; try done. constructor; [|done]. exists (next w). by rewrite Hf.
  - destruct (always_fails (next w)) as (e & He & Hcaught).
    destruct (func (next w)) as [r x1] eqn:Hf. simpl in He. subst r.
    set (w1 := mk_net x1 ((ntrace w ++ [EvAttempt attempt (Some e)])
                          ++ [EvSleep (backoff base_delay attempt)])).
    destruct (IH (attempt + 1)%Z w1) as (failures & e' & x' & Hlen & Hlast & Hall & Hrun);
      [lia | lia |].
    exists (e :: failures), e', x'.
    split; [simpl; lia|]. split; [by destruct failures|].
    split; [constructor; [exists (next w); by rewrite Hf | done]|].
    rewrite retry_loop_S, Hf, Hcaught.
    replace (attempt =? attempts)%Z with false by lia.
    cbn [next ntrace].
    rewrite backoff_double by done. fold w1. rewrite Hrun. unfold w1. cbn [ntrace failed_attempts].
    replace (attempt <? attempts)%Z with true by lia.
    by rewrite <- !app_assoc.
Qed.

End RetryFacts.

(** C5: for [attempts] = N >= 1, the wrapper around an operation that
    fails each time with an exception of the configured classes calls it N
    times, sleeps base_delay * 2^(i-1) after failure i for each i < N, and
    raises the exception of call N as it is. *)
Theorem async_retry_always_failing {X A} (attempts : Z) (base_delay : Q)
    (exceptions : list exc_class) (func : X → res A * X) (w : net_world X) :
  (1 ≤ attempts)%Z →
  (∀ x, ∃ e, fst (func x) = Raise e ∧ isinstance e exceptions = true) →
  ∃ failures e x',
    Z.of_nat (length failures) = attempts ∧ last failures = Some e ∧
    Forall (fun e' => ∃ x, fst (func x) = Raise e') failures ∧
    async_retry attempts base_delay exceptions func w
    = (Raise e, mk_net x' (ntrace w ++ failed_attempts attempts base_delay 1 failures)).
Proof.
  intros Hn Hfails. unfold async_retry.
  destruct (Z.to_nat attempts) as [|n] eqn:Hnat; [lia|].
  destruct (retry_loop_always_fails attempts base_delay exceptions func Hfails n 1 w)
    as (failures & e & x' & Hlen & Hlast & Hall & Hrun); [lia | lia |].
  exists failures, e, x'. split; [lia|]. split; [done|]. split; [done|].
  by rewrite backoff_first in Hrun.
Qed.

Lemma async_retry_always_failing_witness :
  ∃ failures e x',
    Z.of_nat (length failures) = 3%Z ∧ last failures = Some e ∧
    Forall (fun e' => ∃ x, fst (always_failing (mk_exn HTTPError "503") x) = Raise e') failures ∧
    async_retry 3 1 [Exception] (always_failing (mk_exn HTTPError "503")) (mk_net tt [])
    = (Raise e, mk_net x' ([] ++ failed_attempts 3 1 1 failures)).
Proof.
  apply (async_retry_always_failing 3 1 [Exception] (always_failing (mk_exn HTTPError "503"))
           (mk_net tt [])); [lia|].
  intros x. eexists. split; reflexivity.
Defined.

(** With attempts=3 and base_delay=1: three attempts, sleeps of 1 and 2. *)
Example async_retry_three_attempts :
  let e := mk_exn HTTPError "503" in
  async_retry 3 1 [Exception] (always_failing e) (mk_net tt [])
  = (Raise e,
     mk_net tt [EvAttempt 1 (Some e); EvSleep 1; EvAttempt 2 (Some e); EvSleep 2;
                EvAttempt 3 (Some e)]).
Proof. vm_compute. reflexivity. Qed.

(** ** The schedulers *)



Lemma writes_app (t1 t2 : list event) : writes (t1 ++ t2) = writes t1 ++ writes t2.
Proof. apply omap_app. Qed.


(** The events of the providers are seen by no filter that skips them. *)
Lemma filter_consulted {X} (P : event → bool) symbol d (ps : list (Provider X)) :
  (∀ n p s d', P (EvFetchDaily n p s d') = false) →
  List.filter P (consulted symbol d ps) = [].
Proof.
  intros HP. induction ps as [|q qs IH]; simpl; [done|]. by rewrite HP.
Qed.

Section SchedulerFacts.
Context `{Builtins} {X : Type}.
Implicit Types (w : world X) (f : DailyFetcher X) (ps : list (Provider X)).

(** The loop over the providers leaves the database alone and adds to the
    trace the providers it asked. *)
Lemma fetch_loop_trace ps symbol d w r w' :
  fetch_loop ps symbol d w = (r, w') →
  db w' = db w ∧ ∃ asked : list (Provider X), trace w' = trace w ++ consulted symbol d asked.
Proof.
  revert w. induction ps as [|q qs IH]; intros w; simpl.
  { intros [= <- <-]. split; [done|]. exists []. by rewrite app_nil_r. }
  ask_provider.
  destruct (fetch_daily q symbol d (ext w)) as [[[r1|]|e] x']; simpl.
  - intros [= <- <-]. split; [done|]. by exists [q].
  - intros (Hdb & asked & Htr)%IH. simpl in *. split; [done|].
    exists (q :: asked). by rewrite Htr, <- app_assoc.
  - destruct (isinstance e [Exception]).
    + intros (Hdb & asked & Htr)%IH. simpl in *. split; [done|].
      exists (q :: asked). by rewrite Htr, <- app_assoc.
    + intros [= <- <-]. split; [done|]. by exists [q].
Qed.

Lemma fetch_trace f symbol d w r w' :
  fetch f symbol d w = (r, w') →
  db w' = db w ∧
  ∃ asked : list (Provider X),
    trace w' = trace w ++ EvFetch symbol d :: consulted symbol d asked
                       ++ match r with
                          | Ok result => [EvFetched symbol d result]
                          | Raise _ => []
                          end.
Proof.
  rewrite fetch_unfold.
  destruct (fetch_loop _ _ _ _) as [[r1|e] w1] eqn:Hloop;
    apply fetch_loop_trace in Hloop as (Hdb & asked & Htr); simpl in *;
    intros [= <- <-]; (split; [done|]); exists asked; simpl; rewrite Htr.
  - by rewrite <- !app_assoc.
  - by rewrite app_nil_r, <- !app_assoc.
Qed.








End SchedulerFacts.



Example run_initial_load_three_of_five :
  let days := [date_of_ymd 2024 1 1; date_of_ymd 2024 1 3; date_of_ymd 2024 1 5] in
  let fetcher := DailyFetcher_init [calendar_provider "qq" 0 days] in
  let w' := snd (run_initial_load (H := example_builtins) example_settings fetcher
                   ["000001"] (date_of_ymd 2024 1 1) (date_of_ymd 2024 1 5) empty_world) in
  map (map (fun row => (r_symbol row, r_trade_date row))) (writes (trace w'))
  = [[("000001", "2024-01-01"); ("000001", "2024-01-03"); ("000001", "2024-01-05")]] ∧
  count_fetches "000001" (trace w') = 5.
Proof. vm_compute. split; reflexivity. Qed.

(** ** The daily update *)

Lemma count_fetches_app symbol (t1 t2 : list event) :
  count_fetches symbol (t1 ++ t2) = count_fetches symbol t1 + count_fetches symbol t2.
Proof. unfold count_fetches. by rewrite List.filter_app, length_app. Qed.

Lemma count_checks_app symbol (t1 t2 : list event) :
  count_checks symbol (t1 ++ t2) = count_checks symbol t1 + count_checks symbol t2.
Proof. unfold count_checks. by rewrite List.filter_app, length_app. Qed.

Lemma count_checks_selects symbol (symbols : list string) :
  count_checks symbol (map EvSelectDates symbols)
  = length (filter (fun s => s = symbol) symbols).
Proof.
  unfold count_checks. induction symbols as [|s symbols IH]; simpl; [done|].
  rewrite filter_cons. destruct (String.eqb_spec s symbol) as [->|Hne].
  - rewrite decide_True by done. simpl. by rewrite IH.
  - by rewrite decide_False.
Qed.

(** Setting a key of a dict keeps the keys distinct, and adds no entry but
    the one set. *)
Lemma dict_set_keys {V} k (v : V) d :
  map fst (dict_set k v d)
  = if bool_decide (k ∈ map fst d) then map fst d else map fst d ++ [k].
Proof.
  induction d as [|[k' v'] d IH]; simpl; [done|].
  destruct (String.eqb_spec k k') as [->|Hne]; simpl.
  - rewrite bool_decide_true; [done | by left].
  - rewrite IH. destruct (bool_decide (k ∈ map fst d)) eqn:Hin.
    + apply bool_decide_eq_true in Hin. rewrite bool_decide_true; [done | by right].
    + apply bool_decide_eq_false in Hin. rewrite bool_decide_false; [done|].
      intros [?|?]%elem_of_cons; congruence.
Qed.

Lemma dict_set_NoDup {V} k (v : V) d : NoDup (map fst d) → NoDup (map fst (dict_set k v d)).
Proof.
  intros Hnd. rewrite dict_set_keys. case_bool_decide as Hin; [done|].
  apply NoDup_app. split; [done|]. split; [|apply NoDup_singleton].
  intros k' Hk ->%list_elem_of_singleton. done.
Qed.

Lemma dict_set_elem {V} k (v : V) d k' v' :
  (k', v') ∈ dict_set k v d → (k', v') = (k, v) ∨ (k', v') ∈ d.
Proof.
  induction d as [|[k0 v0] d IH]; simpl.
  { intros ->%list_elem_of_singleton. by left. }
  destruct (k =? k0)%string.
  - intros [->|Hin]%elem_of_cons; [by left | right; by right].
  - intros [->|Hin]%elem_of_cons; [right; by left|].
    destruct (IH Hin) as [?|?]; [by left | right; by right].
Qed.

Section DailyUpdateFacts.
Context `{Builtins} {X : Type}.
Implicit Types (w : world X) (f : DailyFetcher X).

(** The map of [_compute_missing]: one query of the stored dates for each
    item of [symbols], duplicates included; the keys of the map are distinct
    and an entry is true only for a symbol with no row for the day. *)
Lemma compute_missing_loop_spec (symbols : list string) d result w :
  ∃ result',
    compute_missing_loop symbols d result w
    = (Ok result', mk_world (ext w) (db w) (trace w ++ map EvSelectDates symbols)) ∧
    (NoDup (map fst result) → NoDup (map fst result')) ∧
    ∀ s b, (s, b) ∈ result' →
           (s, b) ∈ result ∨ (s ∈ symbols ∧ b = negb (stored (daily_bars (db w)) s d)).
Proof.
  revert result w. induction symbols as [|symbol rest IH]; intros result w; simpl.
  { exists result. rewrite app_nil_r. destruct w. by repeat split; [|left]. }
  unfold bind at 1. rewrite missing_daily_dates_unfold.
  set (flag := match filter _ [d] with [] => false | _ => true end).
  assert (Hflag : flag = negb (stored (daily_bars (db w)) symbol d)).
  { unfold flag. rewrite filter_cons, filter_nil.
    by destruct (stored (daily_bars (db w)) symbol d). }
  destruct (IH (dict_set symbol flag result)
               (mk_world (ext w) (db w) (trace w ++ [EvSelectDates symbol])))
    as (result' & Hrun & Hnd & Helem).
  exists result'. split; [|split].
  - rewrite Hrun. simpl. by rewrite <- app_assoc.
  - intros Hr. by apply Hnd, dict_set_NoDup.
  - intros s b Hin. destruct (Helem s b Hin) as [Hset|[Hs Hb]].
    + apply dict_set_elem in Hset as [[= -> ->]|Hold]; [|by left].
      right. split; [by left | done].
    + right. split; [by right | done].
Qed.

(** The loop of [run_daily_update] over the map: at most one fetch for a
    key, and only for a key whose entry is true; no query of stored dates. *)
Lemma daily_loop_counts f d (missing_map : list (string * bool)) w r w' :
  NoDup (map fst missing_map) →
  for_each missing_map
    (fun '(symbol, should_fetch) =>
       if negb should_fetch then ret tt
       else (bar <- fetch f symbol d ;;
             match bar with
             | Some b => upsert_daily_bars [b]
             | None => ret tt
             end)%M) w = (r, w') →
  ∃ delta,
    trace w' = trace w ++ delta ∧
    ∀ symbol,
      (count_fetches symbol delta ≤ 1)%nat ∧ count_checks symbol delta = 0 ∧
      ((1 ≤ count_fetches symbol delta)%nat → (symbol, true) ∈ missing_map).
Proof.
  revert w. induction missing_map as [|[s flag] rest IH]; intros w Hnd; simpl.
  { intros [= <- <-]. exists []. rewrite app_nil_r. split; [done|].
    intros symbol. unfold count_fetches, count_checks; simpl.
    split; [lia | split; [lia | intros; lia]]. }
  apply NoDup_cons in Hnd as [Hfresh Hnd].
  assert (Hrest : ∀ w1 step,
            trace w1 = trace w ++ step →
            (∀ symbol, count_fetches symbol step = (if (s =? symbol)%string then 1 else 0) * (if flag then 1 else 0)
                       ∧ count_checks symbol step = 0) →
            for_each rest
              (fun '(symbol, should_fetch) =>
                 if negb should_fetch then ret tt
                 else (bar <- fetch f symbol d ;;
                       match bar with
                       | Some b => upsert_daily_bars [b]
                       | None => ret tt
                       end)%M) w1 = (r, w') →
            ∃ delta,
              trace w' = trace w ++ delta ∧
              ∀ symbol,
                (count_fetches symbol delta ≤ 1)%nat ∧ count_checks symbol delta = 0 ∧
                ((1 ≤ count_fetches symbol delta)%nat → (symbol, true) ∈ (s, flag) :: rest)).
  { intros w1 step Htr Hstep (delta & Htr' & Hcount)%(IH _ Hnd).
    exists (step ++ delta). split; [by rewrite Htr', Htr, <- app_assoc|].
    intros symbol. rewrite count_fetches_app, count_checks_app.
    destruct (Hstep symbol) as [-> ->]. destruct (Hcount symbol) as (Hle & -> & Hin).
    destruct (String.eqb_spec s symbol) as [->|Hne], flag; simpl.
    - assert (count_fetches symbol delta = 0).
      { destruct (count_fetches symbol delta); [done|]. exfalso. apply Hfresh.
        apply (list_elem_of_fmap_2 fst _ (symbol, true)), Hin. lia. }
      split; [lia | split; [lia | intros; by left]].
    - split; [lia | split; [lia | intros; right; apply Hin; lia]].
    - split; [lia | split; [lia | intros; right; apply Hin; lia]].
    - split; [lia | split; [lia | intros; right; apply Hin; lia]]. }
  assert (Hstop : ∀ step,
            trace w' = trace w ++ step →
            (∀ symbol, count_fetches symbol step = (if (s =? symbol)%string then 1 else 0) * (if flag then 1 else 0)
                       ∧ count_checks symbol step = 0) →
            ∃ delta,
              trace w' = trace w ++ delta ∧
              ∀ symbol,
                (count_fetches symbol delta ≤ 1)%nat ∧ count_checks symbol delta = 0 ∧
                ((1 ≤ count_fetches symbol delta)%nat → (symbol, true) ∈ (s, flag) :: rest)).
  { intros step Htr Hstep. exists step. split; [done|]. intros symbol.
    destruct (Hstep symbol) as [-> ->].
    destruct (String.eqb_spec s symbol) as [->|Hne], flag; simpl;
      (split; [lia | split; [lia | intros; first [by left | lia]]]). }
  unfold bind at 1. destruct flag; simpl.
  - unfold bind at 1.
    destruct (fetch f s d w) as [[bar|e] w1] eqn:Hfetch;
      apply fetch_trace in Hfetch as (_ & asked & Htr1).
    + assert (Hcount1 : ∀ symbol tail,
                count_fetches symbol (EvFetch s d :: consulted s d asked ++ [EvFetched s d bar] ++ tail)
                = (if (s =? symbol)%string then 1 else 0) + count_fetches symbol tail
                ∧ count_checks symbol (EvFetch s d :: consulted s d asked ++ [EvFetched s d bar] ++ tail)
                  = count_checks symbol tail).
      { intros symbol tail. unfold count_fetches, count_checks. simpl.
        rewrite !List.filter_app, !filter_consulted by done. simpl.
        by destruct (s =? symbol)%string. }
      destruct bar as [b|].
      * destruct (has_nan b) eqn:Hnan.
        { destruct (upsert_daily_bars_raises [b] w1) as (e & -> & _); [simpl; by rewrite Hnan|].
          intros [= <- <-].
          apply (Hstop (EvFetch s d :: consulted s d asked ++ [EvFetched s d (Some b)] ++ [])).
          { by rewrite app_nil_r. }
          intros symbol. destruct (Hcount1 symbol []) as [-> ->].
          unfold count_fetches, count_checks; simpl. split; lia. }
        rewrite upsert_daily_bars_unfold by (simpl; by rewrite Hnan). simpl.
        apply (Hrest _ (EvFetch s d :: consulted s d asked ++ [EvFetched s d (Some b)]
                         ++ [EvUpsertBars [record_of_bar b]])).
        { simpl. rewrite Htr1, <- app_assoc. simpl. by rewrite <- app_assoc. }
        intros symbol. destruct (Hcount1 symbol [EvUpsertBars [record_of_bar b]]) as [-> ->].
        unfold count_fetches, count_checks; simpl. split; lia.
      * unfold ret.
        apply (Hrest _ (EvFetch s d :: consulted s d asked ++ [EvFetched s d None] ++ [])).
        { by rewrite app_nil_r. }
        intros symbol. destruct (Hcount1 symbol []) as [-> ->].
        unfold count_fetches, count_checks; simpl. split; lia.
    + intros [= <- <-].
      apply (Hstop (EvFetch s d :: consulted s d asked ++ [])); [done|].
      intros symbol. unfold count_fetches, count_checks. simpl.
      rewrite !List.filter_app, !filter_consulted by done. simpl.
      destruct (s =? symbol)%string; simpl; split; lia.
  - unfold ret at 1. apply (Hrest w []); [by rewrite app_nil_r|].
    intros symbol. unfold count_fetches, count_checks; simpl. split; lia.
Qed.

End DailyUpdateFacts.

(** C10 (amended): with an explicit list of symbols, [run_daily_update]
    fetches each symbol at most once, whatever the number of times the list
    names it, and fetches only a symbol of the list that has no row for the
    day; it queries the stored dates of a symbol once for each time the list
    names it. *)
Theorem run_daily_update_fetches_once `{Builtins} {X} (fetcher : DailyFetcher X)
    (trade_date : date) (symbols : list string) (w : world X) r w' :
  run_daily_update fetcher trade_date (Some symbols) w = (r, w') →
  ∃ delta,
    trace w' = trace w ++ delta ∧
    ∀ symbol,
      (count_fetches symbol delta ≤ 1)%nat ∧
      count_checks symbol delta = length (filter (fun s => s = symbol) symbols) ∧
      ((1 ≤ count_fetches symbol delta)%nat →
       symbol ∈ symbols ∧ stored (daily_bars (db w)) symbol trade_date = false).
Proof.
  unfold run_daily_update, _compute_missing, bind at 1, ret at 1. unfold bind at 1.
  destruct (compute_missing_loop_spec symbols trade_date [] w)
    as (missing_map & -> & Hnd & Helem).
  intros (delta & Htr & Hcount)%daily_loop_counts; [|apply Hnd, NoDup_nil_2].
  simpl in Htr. exists (map EvSelectDates symbols ++ delta).
  split; [by rewrite Htr, <- app_assoc|].
  intros symbol. rewrite count_fetches_app, count_checks_app, count_checks_selects.
  destruct (Hcount symbol) as (Hle & -> & Hin).
  assert (Hzero : count_fetches symbol (map EvSelectDates symbols) = 0).
  { unfold count_fetches. clear. by induction symbols. }
  rewrite Hzero. split; [lia | split; [lia|]].
  intros Hone. destruct (Helem symbol true) as [Hnil|[Hs Hflag]]; [apply Hin; lia | | ].
  - by apply elem_of_nil in Hnil.
  - split; [done|]. by destruct (stored _ symbol trade_date).
Qed.

Lemma run_daily_update_fetches_once_witness :
  let d := date_of_ymd 2024 1 2 in
  let fetcher := DailyFetcher_init [calendar_provider "qq" 0 [d]] in
  let run := run_daily_update (H := example_builtins) fetcher d (Some ["000001"; "000001"])
               empty_world in
  ∃ delta,
    trace (snd run) = trace empty_world ++ delta ∧
    ∀ symbol,
      (count_fetches symbol delta ≤ 1)%nat ∧
      count_checks symbol delta = length (filter (fun s => s = symbol) ["000001"; "000001"]) ∧
      ((1 ≤ count_fetches symbol delta)%nat →
       symbol ∈ ["000001"; "000001"] ∧
       stored (daily_bars (db empty_world)) symbol d = false).
Proof.
  intros d fetcher run.
  refine (run_daily_update_fetches_once (H := example_builtins) fetcher d
            ["000001"; "000001"] empty_world (fst run) (snd run) _).
  vm_compute. reflexivity.
Defined.

(** C10, as stated, fails for the query: a symbol named twice is looked up
    in the storage twice (and fetched once). *)
Lemma run_daily_update_checks_each_occurrence :
  let d := date_of_ymd 2024 1 2 in
  let fetcher := DailyFetcher_init [calendar_provider "qq" 0 [d]] in
  let w' := snd (run_daily_update (H := example_builtins) fetcher d
                   (Some ["000001"; "000001"]) empty_world) in
  count_checks "000001" (trace w') = 2 ∧ count_fetches "000001" (trace w') = 1.
Proof. vm_compute. split; reflexivity. Qed.

(** ** Parsing in the providers *)

(** A QQ record without a required price is absent. *)
Example QQ_missing_price_absent `{Builtins} symbol d :
  QQ_parse_payload symbol d qq_payload_no_close = Ok None.
Proof. reflexivity. Qed.

(** X30: the EastMoney parser converts the six numbers of a row inside
    its [try]: whatever the rows of "klines" are, it does not raise. *)
Lemma EastMoney_rows_never_raise `{Builtins} symbol d (rows : list json) :
  ∃ r, EastMoney_parse_payload symbol d (JDict [("data", JDict [("klines", JList rows)])]) = Ok r.
Proof.
  unfold EastMoney_parse_payload. simpl.
  destruct rows as [|row rows]; simpl; [eexists; reflexivity|].
  destruct (find_target _ _) as [target|]; [|eexists; reflexivity].
  destruct (firstn 7 (split "," target)) as [|f1 [|f2 [|f3 [|f4 [|f5 [|f6 [|f7 [|f8 fs]]]]]]]];
    try (eexists; reflexivity).
  unfold py_float.
  repeat match goal with
         | |- context [float_of_str ?s] =>
             destruct (float_of_str s); simpl; try (eexists; reflexivity)
         end.
Qed.

(** C7 fails for QQProvider: the volume and the turnover are converted
    after the [try] block.  A body whose record has the four prices and a
    null volume makes [_parse_payload], and with it [fetch_daily], raise
    TypeError. *)
Theorem QQ_fetch_daily_raises_on_null_volume `{Builtins} :
  let symbol := "000001" in
  let d := date_of_ymd 2024 1 2 in
  let client := canned_client qq_payload_null_volume in
  let e := mk_exn TypeError
             "float() argument must be a string or a real number, not 'NoneType'" in
  QQ_parse_payload symbol d qq_payload_null_volume = Raise e ∧
  ∃ provider,
    NetProvider_init example_settings QQ 0 (Some client) None = Ok provider ∧
    net_fetch_daily (fun _ => client) provider symbol d (mk_net tt [])
    = (Raise e, mk_net tt [EvAcquire; EvAttempt 1 None]).
Proof.
  split; [reflexivity|]. eexists. split; reflexivity.
Qed.

(** * Further properties *)

(** ** The retry wrapper in general *)

Section RetryGeneral.
Context {X A : Type}.
Variables (attempts : Z) (base_delay : Q) (exceptions : list exc_class).
Variable func : X → res A * X.

(** After failures that the wrapper retries, the loop stands at the next
    attempt, with the doubled delay. *)
Lemma retry_loop_after_failures failures x1 :
  ∀ (n : nat) (attempt : Z) (w : net_world X),
    fails_with exceptions func failures (next w) x1 →
    (1 ≤ attempt)%Z →
    (attempt + Z.of_nat (length failures) ≤ attempts)%Z →
    retry_loop attempts exceptions func (length failures + S n) attempt
      (backoff base_delay attempt) w
    = retry_loop attempts exceptions func (S n) (attempt + Z.of_nat (length failures))
        (backoff base_delay (attempt + Z.of_nat (length failures)))
        (mk_net x1 (ntrace w ++ failed_attempts attempts base_delay attempt failures)).
Proof.
  induction failures as [|e es IH]; intros n attempt w Hfails Hpos Hle.
  - inversion Hfails; subst. simpl. rewrite Z.add_0_r, app_nil_r. by destruct w.
  - inversion Hfails as [|? ? ? xa ? Hf Hcaught Hrest]; subst.
    cbn [length Nat.add]. rewrite retry_loop_S, Hf, Hcaught.
    cbn [length] in Hle.
    replace (attempt =? attempts)%Z with false by lia.
    cbn [next ntrace]. rewrite backoff_double by done.
    rewrite (IH n (attempt + 1)%Z); [|done | lia | lia].
    cbn [next ntrace failed_attempts].
    replace (attempt <? attempts)%Z with true by lia.
    replace (attempt + 1 + Z.of_nat (length es))%Z
      with (attempt + Z.of_nat (S (length es)))%Z by lia.
    by rewrite <- !app_assoc.
Qed.

(** Whatever the operation does, the loop adds to the trace attempts and
    sleeps only, one sleep between two attempts, at most [n] attempts. *)
Lemma retry_loop_events (n : nat) :
  ∀ (attempt : Z) (w : net_world X) r w',
    (1 ≤ attempt)%Z →
    (attempt + Z.of_nat n = attempts + 1)%Z →
    retry_loop attempts exceptions func n attempt (backoff base_delay attempt) w = (r, w') →
    ∃ delta,
      ntrace w' = ntrace w ++ delta ∧
      (count_attempts delta ≤ n)%nat ∧
      count_sleeps delta = (count_attempts delta - 1)%nat ∧
      count_acquires delta = 0 ∧
      (n ≠ 0 → count_attempts delta ≠ 0) ∧
      Forall (retry_event attempts base_delay) delta.
Proof.
  induction n as [|n IH]; intros attempt w r w' Hpos Hsum.
  - simpl. intros [= <- <-]. exists []. rewrite app_nil_r. by repeat split.
  - rewrite retry_loop_S.
    destruct (func (next w)) as [[v|e] x] eqn:Hf.
    + intros [= <- <-]. exists [EvAttempt attempt None]. simpl.
      split; [done|]. split; [unfold count_attempts; simpl; lia|].
      repeat split; try done. constructor; [simpl; lia | constructor].
    + cbn zeta.
      assert (Hstop : (Raise e, mk_net x (ntrace w ++ [EvAttempt attempt (Some e)])) = (r, w') →
               ∃ delta,
                 ntrace w' = ntrace w ++ delta ∧ (count_attempts delta ≤ S n)%nat ∧
                 count_sleeps delta = (count_attempts delta - 1)%nat ∧
                 count_acquires delta = 0 ∧ (S n ≠ 0 → count_attempts delta ≠ 0) ∧
                 Forall (retry_event attempts base_delay) delta).
      { intros [= <- <-]. exists [EvAttempt attempt (Some e)]. simpl.
        split; [done|]. split; [unfold count_attempts; simpl; lia|].
        repeat split; try done. constructor; [simpl; lia | constructor]. }
      destruct (isinstance e exceptions); [|exact Hstop].
      destruct (Z.eqb_spec attempt attempts) as [Heq|Hne]; [exact Hstop|].
      cbn [next ntrace]. rewrite backoff_double by done.
      intros (delta & Htr & Hcount & Hsleeps & Hacq & Hnz & Hall)%IH; [|lia|lia].
      cbn [ntrace] in Htr.
      exists (EvAttempt attempt (Some e) :: EvSleep (backoff base_delay attempt) :: delta).
      split; [by rewrite Htr, <- !app_assoc|].
      assert (Hn : n ≠ 0) by lia. specialize (Hnz Hn).
      unfold count_attempts, count_sleeps, count_acquires in *. simpl.
      split; [lia|]. split; [lia|]. split; [done|]. split; [done|].
      constructor; [simpl; lia|]. constructor; [|done].
      exists attempt. split; [lia | done].
Qed.

(** The shape of every run of the loop: failures, each followed by its
    sleep, then one attempt with nothing after it. *)
Lemma retry_loop_shape (n : nat) : ∀ (attempt : Z) (w : net_world X),
  (1 ≤ attempt)%Z → (attempt + Z.of_nat n = attempts)%Z →
  ∃ failures outcome,
    (attempt + Z.of_nat (length failures) ≤ attempts)%Z ∧
    ntrace (snd (retry_loop attempts exceptions func (S n) attempt
                   (backoff base_delay attempt) w))
    = ntrace w ++ retried base_delay attempt failures
               ++ [EvAttempt (attempt + Z.of_nat (length failures)) outcome] ∧
    match fst (retry_loop attempts exceptions func (S n) attempt
                 (backoff base_delay attempt) w) with
    | Ok _ => outcome = None
    | Raise e => outcome = Some e
    end.
Proof using Type.
  induction n as [|n IH]; intros attempt w Hone Hleft; rewrite retry_loop_S.
  - destruct (func (next w)) as [[v|e] x].
    + exists [], None. simpl. rewrite Z.add_0_r. split; [lia | done].
    + exists [], (Some e). simpl. rewrite Z.add_0_r. split; [lia|].
      destruct (isinstance e exceptions); [|done].
      by rewrite (proj2 (Z.eqb_eq attempt attempts)) by lia.
  - destruct (func (next w)) as [[v|e] x].
    + exists [], None. simpl. rewrite Z.add_0_r. split; [lia | done].
    + cbn zeta. destruct (isinstance e exceptions).
      * rewrite (proj2 (Z.eqb_neq attempt attempts)) by lia.
        rewrite (backoff_double base_delay attempt Hone). cbn [ntrace].
        destruct (IH (attempt + 1)%Z
                    (mk_net x ((ntrace w ++ [EvAttempt attempt (Some e)])
                               ++ [EvSleep (backoff base_delay attempt)])))
          as (failures & outcome & Hlen & Htr & Hres); [lia|lia|].
        exists (e :: failures), outcome. cbn [length retried].
        split; [lia|]. split; [|done].
        rewrite Htr. cbn [ntrace].
        replace (attempt + Z.of_nat (S (length failures)))%Z
          with (attempt + 1 + Z.of_nat (length failures))%Z by lia.
        by rewrite <- !app_assoc.
      * exists [], (Some e). simpl. rewrite Z.add_0_r. split; [lia | done].
Qed.

(** A value that the loop returns is one that the operation returned, and
    the outside world is as that call left it. *)
Lemma retry_loop_returned (n : nat) : ∀ (attempt : Z) (delay : Q) (w w' : net_world X) v,
  retry_loop attempts exceptions func n attempt delay w = (Ok v, w') →
  ∃ x, func x = (Ok v, next w').
Proof using Type.
  induction n as [|n IH]; intros attempt delay w w' v; [done|].
  rewrite retry_loop_S. destruct (func (next w)) as [[v1|e] x] eqn:Hcall.
  - intros [= -> <-]. by exists (next w).
  - cbn zeta. destruct (isinstance e exceptions); [|done].
    destruct (attempt =? attempts)%Z; [done|]. apply IH.
Qed.

End RetryGeneral.

(** X1: with [attempts] <= 0 the wrapper does not call the operation and
    raises RuntimeError. *)
Theorem async_retry_no_attempts {X A} (attempts : Z) (base_delay : Q)
    (exceptions : list exc_class) (func : X → res A * X) (w : net_world X) :
  (attempts ≤ 0)%Z →
  async_retry attempts base_delay exceptions func w
  = (Raise (mk_exn RuntimeError "retry decorator failed unexpectedly"), w).
Proof.
  intros Hle. unfold async_retry.
  replace (Z.to_nat attempts) with 0%nat by lia. reflexivity.
Qed.

Lemma async_retry_no_attempts_witness :
  async_retry 0 1 [Exception] (fails_until 0 (mk_exn HTTPError "503")) (mk_net 0%nat [])
  = (Raise (mk_exn RuntimeError "retry decorator failed unexpectedly"), mk_net 0%nat []).
Proof.
  apply (async_retry_no_attempts 0 1 [Exception] (fails_until 0 (mk_exn HTTPError "503"))
           (mk_net 0%nat [])).
  lia.
Defined.

(** X2: when the operation fails k < attempts times with exceptions of the
    configured classes and then succeeds, the wrapper returns its value
    after k + 1 calls, having slept base_delay * 2^(i-1) after failure i. *)
Theorem async_retry_succeeds_after_failures {X A} (attempts : Z) (base_delay : Q)
    (exceptions : list exc_class) (func : X → res A * X) (w : net_world X)
    (failures : list exn) x1 v x2 :
  fails_with exceptions func failures (next w) x1 →
  func x1 = (Ok v, x2) →
  (Z.of_nat (length failures) < attempts)%Z →
  async_retry attempts base_delay exceptions func w
  = (Ok v,
     mk_net x2 (ntrace w ++ failed_attempts attempts base_delay 1 failures
                         ++ [EvAttempt (1 + Z.of_nat (length failures)) None])).
Proof.
  intros Hfails Hok Hlt. unfold async_retry.
  replace (Z.to_nat attempts)
    with (length failures + S (Z.to_nat attempts - length failures - 1))%nat by lia.
  rewrite <- (backoff_first base_delay) at 1.
  rewrite (retry_loop_after_failures attempts base_delay exceptions func failures x1)
    by (done || lia).
  rewrite retry_loop_S. cbn [next ntrace]. rewrite Hok.
  by rewrite <- app_assoc.
Qed.

Lemma async_retry_succeeds_after_failures_witness :
  let e := mk_exn HTTPError "503" in
  async_retry 3 1 [Exception] (fails_until 2 e) (mk_net 0%nat [])
  = (Ok 2%nat,
     mk_net 3%nat ([] ++ failed_attempts 3 1 1 [e; e]
                      ++ [EvAttempt (1 + Z.of_nat (length [e; e])) None])).
Proof.
  intros e.
  refine (async_retry_succeeds_after_failures 3 1 [Exception] (fails_until 2 e)
            (mk_net 0%nat []) [e; e] 2%nat 2%nat 3%nat _ eq_refl _).
  - eapply fails_with_cons; [reflexivity | reflexivity |].
    eapply fails_with_cons; [reflexivity | reflexivity | constructor].
  - simpl. lia.
Defined.

(** X3: an exception outside the configured classes is not retried: it
    leaves the wrapper at once, with no sleep after it. *)
Theorem async_retry_uncaught_exception {X A} (attempts : Z) (base_delay : Q)
    (exceptions : list exc_class) (func : X → res A * X) (w : net_world X)
    (failures : list exn) x1 e x2 :
  fails_with exceptions func failures (next w) x1 →
  func x1 = (Raise e, x2) →
  isinstance e exceptions = false →
  (Z.of_nat (length failures) < attempts)%Z →
  async_retry attempts base_delay exceptions func w
  = (Raise e,
     mk_net x2 (ntrace w ++ failed_attempts attempts base_delay 1 failures
                         ++ [EvAttempt (1 + Z.of_nat (length failures)) (Some e)])).
Proof.
  intros Hfails Hraise Huncaught Hlt. unfold async_retry.
  replace (Z.to_nat attempts)
    with (length failures + S (Z.to_nat attempts - length failures - 1))%nat by lia.
  rewrite <- (backoff_first base_delay) at 1.
  rewrite (retry_loop_after_failures attempts base_delay exceptions func failures x1)
    by (done || lia).
  rewrite retry_loop_S. cbn [next ntrace]. rewrite Hraise, Huncaught.
  by rewrite <- app_assoc.
Qed.

Lemma async_retry_uncaught_exception_witness :
  let e := mk_exn KeyboardInterrupt "" in
  async_retry 3 1 [Exception] (fails_until 1 e) (mk_net 0%nat [])
  = (Raise e,
     mk_net 1%nat ([] ++ failed_attempts 3 1 1 []
                      ++ [EvAttempt (1 + Z.of_nat (length (@nil exn))) (Some e)])).
Proof.
  intros e.
  refine (async_retry_uncaught_exception 3 1 [Exception] (fails_until 1 e)
            (mk_net 0%nat []) [] 0%nat e 1%nat _ eq_refl eq_refl _).
  - constructor.
  - simpl. lia.
Defined.

(** X4: whatever the operation does, the calls and sleeps of the wrapper
    are, in this order: failed attempts 1, 2, ..., k, attempt i followed at
    once by the sleep of base_delay * 2^(i-1), then attempt k + 1 with
    nothing after it, where k < [attempts]; the last attempt succeeded when
    the wrapper returns and raised what the wrapper raises otherwise.  With
    [attempts] <= 0 there is no call and no sleep.  In particular there are
    at most [attempts] calls and one sleep fewer than calls. *)
Theorem async_retry_bounded {X A} (attempts : Z) (base_delay : Q)
    (exceptions : list exc_class) (func : X → res A * X) (w : net_world X) :
  ∃ delta,
    ntrace (snd (async_retry attempts base_delay exceptions func w)) = ntrace w ++ delta ∧
    (count_attempts delta ≤ Z.to_nat attempts)%nat ∧
    count_sleeps delta = (count_attempts delta - 1)%nat ∧
    Forall (retry_event attempts base_delay) delta ∧
    (((attempts ≤ 0)%Z ∧ delta = []) ∨
     ∃ failures outcome,
       (Z.of_nat (length failures) < attempts)%Z ∧
       delta = retried base_delay 1 failures
               ++ [EvAttempt (1 + Z.of_nat (length failures)) outcome] ∧
       match fst (async_retry attempts base_delay exceptions func w) with
       | Ok _ => outcome = None
       | Raise e => outcome = Some e
       end).
Proof.
  unfold async_retry.
  destruct (Z_le_gt_dec attempts 0) as [Hle|Hgt].
  - replace (Z.to_nat attempts) with 0%nat in * by lia.
    exists []. simpl. rewrite app_nil_r. repeat split; try done. by left.
  - destruct (retry_loop attempts exceptions func (Z.to_nat attempts) 1 base_delay w)
      as [r w'] eqn:Hrun.
    pose proof Hrun as Hshape.
    rewrite <- (backoff_first base_delay) in Hrun at 1.
    apply retry_loop_events in Hrun as (delta & Htr & Hcount & Hsleeps & _ & _ & Hall);
      [|lia|lia].
    exists delta. split; [done|]. split; [done|]. split; [done|]. split; [done|].
    right.
    destruct (retry_loop_shape attempts base_delay exceptions func
                (Z.to_nat attempts - 1) 1 w) as (failures & outcome & Hlen & Htr2 & Hres);
      [lia|lia|].
    replace (S (Z.to_nat attempts - 1)) with (Z.to_nat attempts) in Htr2, Hres by lia.
    rewrite backoff_first, Hshape in Htr2, Hres. simpl in Htr2, Hres.
    exists failures, outcome. split; [lia|]. split; [|done].
    rewrite Htr in Htr2. by apply app_inv_head in Htr2.
Qed.

(** ** The network providers *)

Section NetProviderFacts.
Context `{Builtins} {X : Type}.
Implicit Types (self : NetProvider X) (w : net_world X).

Lemma NetProvider_init_fields settings k priority (client : option (HttpClient X))
    rate_limiter self :
  NetProvider_init settings k priority client rate_limiter = Ok self →
  kind self = k ∧ np_priority self = priority ∧ _client self = client ∧
  _owns_client self = match client with None => true | Some _ => false end ∧
  is_Some (_rate_limiter self) ∧
  _retry_attempts self = retry_attempts settings ∧
  _retry_base_delay self = retry_base_delay settings.
Proof.
  unfold NetProvider_init, res_bind.
  destruct (match rate_limiter with Some l => Ok l | None => _ end) as [limiter|e]; [|done].
  intros [= <-]. simpl. by repeat split.
Qed.

(** [close] of a constructed provider closes nothing. *)
Lemma net_close_of_init settings k priority (client : option (HttpClient X)) rate_limiter
    self w :
  NetProvider_init settings k priority client rate_limiter = Ok self →
  net_close self w = (Ok tt, w).
Proof.
  intros (_ & _ & Hclient & Howns & _)%NetProvider_init_fields.
  unfold net_close. rewrite Hclient, Howns. by destruct client.
Qed.

End NetProviderFacts.

(** X5: a provider is constructed unless no limiter is injected and
    max_requests_per_second is not positive, in which case the constructor
    raises ValueError; a constructed provider always has a limiter. *)
Theorem NetProvider_init_outcome {X} (settings : Settings) (k : variant) (priority : Z)
    (client : option (HttpClient X)) (rate_limiter : option AsyncRateLimiter) :
  match NetProvider_init settings k priority client rate_limiter with
  | Raise e =>
      rate_limiter = None ∧ (max_requests_per_second settings ≤ 0)%Z ∧
      exn_class e = ValueError
  | Ok self =>
      (is_Some rate_limiter ∨ (0 < max_requests_per_second settings)%Z) ∧
      is_Some (_rate_limiter self) ∧
      (∀ l, rate_limiter = Some l → _rate_limiter self = Some l)
  end.
Proof.
  unfold NetProvider_init, AsyncRateLimiter_init, res_bind.
  destruct rate_limiter as [l|]; simpl.
  - split; [left; by eexists|]. split; [by eexists | done].
  - destruct (Z.leb_spec (max_requests_per_second settings) 0); simpl.
    + done.
    + split; [by right|]. split; [by eexists | done].
Qed.

(** X6: a constructed provider never closes a client: [close] does nothing,
    and a request through an injected client is the GET alone. *)
Theorem net_provider_never_closes_client `{Builtins} {X} (settings : Settings)
    (AsyncClient : Q → HttpClient X) (k : variant) (priority : Z)
    (client : option (HttpClient X)) (rate_limiter : option AsyncRateLimiter)
    (self : NetProvider X) :
  NetProvider_init settings k priority client rate_limiter = Ok self →
  (∀ w, net_close self w = (Ok tt, w)) ∧
  (∀ c symbol d x,
     client = Some c →
     _request_daily AsyncClient self symbol d x
     = get_json c (_endpoint self) (request_params k symbol d) (_timeout self) x).
Proof.
  intros Hinit. split.
  - intros w. by eapply net_close_of_init.
  - intros c symbol d x ->.
    apply NetProvider_init_fields in Hinit as (Hk & _ & Hclient & _).
    unfold _request_daily, try_finally. rewrite Hclient, Hk. simpl.
    by destruct (get_json c _ _ _ x).
Qed.

Lemma net_provider_never_closes_client_witness :
  ∃ self,
    NetProvider_init example_settings QQ 0 (Some (canned_client qq_payload_full)) None = Ok self ∧
    net_close self (mk_net tt []) = (Ok tt, mk_net tt []).
Proof.
  eexists. split; [reflexivity|].
  exact (proj1 (net_provider_never_closes_client (H := example_builtins) example_settings
                  (fun _ => canned_client JNull) QQ 0 (Some (canned_client qq_payload_full))
                  None _ eq_refl) (mk_net tt [])).
Defined.

(** X7: [fetch_daily] acquires the limiter once, before the first request,
    and not again for a retry; it makes at most [_retry_attempts] requests. *)
Theorem fetch_daily_acquires_once `{Builtins} {X} (AsyncClient : Q → HttpClient X)
    (self : NetProvider X) (symbol : string) (d : date) (w : net_world X) :
  ∃ delta,
    ntrace (snd (net_fetch_daily AsyncClient self symbol d w))
    = ntrace w ++ match _rate_limiter self with Some _ => [EvAcquire] | None => [] end ++ delta ∧
    count_acquires delta = 0 ∧
    (count_attempts delta ≤ Z.to_nat (_retry_attempts self))%nat.
Proof.
  unfold net_fetch_daily, bind at 1, _apply_rate_limit.
  set (first := match _rate_limiter self with Some _ => [EvAcquire] | None => [] end).
  assert (∃ w1, (match _rate_limiter self with
                          | Some limiter => acquire limiter
                          | None => ret tt
                          end) w = (Ok tt, w1) ∧ ntrace w1 = ntrace w ++ first)
    as (w1 & -> & Htr1).
  { unfold first. destruct (_rate_limiter self); eexists; (split; [reflexivity|]); simpl;
      [done | by rewrite app_nil_r]. }
  unfold bind, _with_retry, async_retry.
  destruct (retry_loop _ _ _ _ _ _ w1) as [r w2] eqn:Hrun.
  assert (∃ delta, ntrace w2 = ntrace w1 ++ delta ∧ count_acquires delta = 0 ∧
                   (count_attempts delta ≤ Z.to_nat (_retry_attempts self))%nat)
    as (delta & Htr2 & Hacq & Hcount).
  { destruct (Z_le_gt_dec (_retry_attempts self) 0) as [Hle|Hgt].
    - replace (Z.to_nat (_retry_attempts self)) with 0%nat in * by lia.
      injection Hrun as <- <-. exists []. by rewrite app_nil_r.
    - rewrite <- (backoff_first (_retry_base_delay self)) in Hrun at 1.
      apply retry_loop_events in Hrun as (delta & Htr & Hcount & _ & Hacq & _); [|lia|lia].
      by exists delta. }
  exists delta. split; [|done].
  destruct r as [payload|e]; simpl.
  - destruct (negb (truthy payload)); simpl; by rewrite Htr2, Htr1, <- app_assoc.
  - by rewrite Htr2, Htr1, <- app_assoc.
Qed.

(** X8: with [_retry_attempts] <= 0 a provider makes no request at all:
    [fetch_daily] raises RuntimeError, which the fetcher counts as a miss. *)
Theorem fetch_daily_no_attempts `{Builtins} {X} (AsyncClient : Q → HttpClient X)
    (self : NetProvider X) (symbol : string) (d : date) (w : net_world X) :
  (_retry_attempts self ≤ 0)%Z →
  ∃ e w',
    net_fetch_daily AsyncClient self symbol d w = (Raise e, w') ∧
    exn_class e = RuntimeError ∧ is_miss (Raise e) ∧
    next w' = next w ∧ count_attempts (ntrace w') = count_attempts (ntrace w).
Proof.
  intros Hle. unfold net_fetch_daily, bind at 1, _apply_rate_limit.
  assert (∃ w1, (match _rate_limiter self with
                          | Some limiter => acquire limiter
                          | None => ret tt
                          end) w = (Ok tt, w1) ∧ next w1 = next w ∧
                         count_attempts (ntrace w1) = count_attempts (ntrace w))
    as (w1 & -> & Hnext & Hcount).
  { destruct (_rate_limiter self); eexists; (split; [reflexivity|]); simpl; [|done].
    split; [done|]. unfold count_attempts. rewrite List.filter_app. simpl.
    by rewrite app_nil_r. }
  unfold bind, _with_retry, async_retry.
  replace (Z.to_nat (_retry_attempts self)) with 0%nat by lia. simpl.
  eexists _, w1. split; [reflexivity|]. split; [done|]. split; [|done].
  right. eexists. split; reflexivity.
Qed.

Lemma fetch_daily_no_attempts_witness :
  ∃ e w',
    net_fetch_daily (H := example_builtins) (fun _ => canned_client qq_payload_full)
      {| kind := QQ; np_priority := 0; _rate_limiter := Some (mk_limiter 5 1);
         _retry_attempts := 0; _retry_base_delay := 1 # 2; _endpoint := "";
         _timeout := 10; _client := None; _owns_client := true |}
      "000001" (date_of_ymd 2024 1 2) (mk_net tt []) = (Raise e, w') ∧
    exn_class e = RuntimeError.
Proof.
  destruct (fetch_daily_no_attempts (H := example_builtins)
              (fun _ => canned_client qq_payload_full)
              {| kind := QQ; np_priority := 0; _rate_limiter := Some (mk_limiter 5 1);
                 _retry_attempts := 0; _retry_base_delay := 1 # 2; _endpoint := "";
                 _timeout := 10; _client := None; _owns_client := true |}
              "000001" (date_of_ymd 2024 1 2) (mk_net tt []))
    as (e & w' & Hrun & Hclass & _).
  - simpl. lia.
  - exists e, w'. split; [exact Hrun | exact Hclass].
Defined.

Section ParseFacts.
Context `{Builtins}.

(** A result of either parser is labelled with the request and carries
    the body it was read from. *)
Lemma QQ_parse_payload_fields symbol d payload r :
  QQ_parse_payload symbol d payload = Ok (Some r) →
  PR.symbol r = symbol ∧ PR.trade_date r = d ∧ PR.raw r = payload.
Proof.
  unfold QQ_parse_payload, res_bind. intros Hparse.
  repeat case_match; simplify_eq; done.
Qed.

Lemma EastMoney_parse_payload_fields symbol d payload r :
  EastMoney_parse_payload symbol d payload = Ok (Some r) →
  PR.symbol r = symbol ∧ PR.trade_date r = d ∧ PR.raw r = payload.
Proof.
  unfold EastMoney_parse_payload, try_except, res_bind. intros Hparse.
  repeat case_match; simplify_eq; done.
Qed.

End ParseFacts.

(** X9: a bar returned by [fetch_daily] of a network provider is labelled
    with the requested symbol and day, and its [raw] field is the response
    body it was parsed from: a non-empty body that a request for that symbol
    and day returned, the network being afterwards as that request left
    it. *)
Theorem fetch_daily_result_fields `{Builtins} {X} (AsyncClient : Q → HttpClient X)
    (self : NetProvider X) (symbol : string) (d : date) (w w' : net_world X)
    (r : ProviderResult) :
  net_fetch_daily AsyncClient self symbol d w = (Ok (Some r), w') →
  PR.symbol r = symbol ∧ PR.trade_date r = d ∧ truthy (PR.raw r) = true ∧
  _parse_payload self symbol d (PR.raw r) = Ok (Some r) ∧
  ∃ x, _request_daily AsyncClient self symbol d x = (Ok (PR.raw r), next w').
Proof.
  unfold net_fetch_daily, bind at 1.
  destruct (_apply_rate_limit self w) as [[[]|e] w1]; [|done].
  unfold bind.
  destruct (_with_retry self _ w1) as [[payload|e] w2] eqn:Hretry; [|done].
  destruct (truthy payload) eqn:Htruthy; simpl; [|done].
  unfold lift. intros [= Hparse <-].
  assert (PR.symbol r = symbol ∧ PR.trade_date r = d ∧ PR.raw r = payload)
    as (? & ? & Hraw).
  { unfold _parse_payload in Hparse. destruct (kind self);
      [by apply QQ_parse_payload_fields | by apply EastMoney_parse_payload_fields]. }
  rewrite Hraw. split; [done|]. split; [done|]. split; [done|]. split; [done|].
  unfold _with_retry, async_retry in Hretry.
  by apply retry_loop_returned in Hretry.
Qed.

Lemma fetch_daily_result_fields_witness :
  ∃ r w',
    net_fetch_daily (H := example_builtins) (fun _ => canned_client qq_payload_full)
      {| kind := QQ; np_priority := 0; _rate_limiter := None;
         _retry_attempts := 3; _retry_base_delay := 1 # 2; _endpoint := "";
         _timeout := 10; _client := None; _owns_client := true |}
      "000001" (date_of_ymd 2024 1 2) (mk_net tt []) = (Ok (Some r), w') ∧
    PR.symbol r = "000001" ∧ PR.trade_date r = date_of_ymd 2024 1 2 ∧
    PR.raw r = qq_payload_full.
Proof.
  eexists _, _. split; [reflexivity|].
  destruct (fetch_daily_result_fields (H := example_builtins)
              (fun _ => canned_client qq_payload_full)
              {| kind := QQ; np_priority := 0; _rate_limiter := None;
                 _retry_attempts := 3; _retry_base_delay := 1 # 2; _endpoint := "";
                 _timeout := 10; _client := None; _owns_client := true |}
              "000001" (date_of_ymd 2024 1 2) (mk_net tt []) _ _ eq_refl)
    as (Hs & Hd & _).
  split; [exact Hs|]. split; [exact Hd | reflexivity].
Defined.

(** X10: the EastMoney parser answers None, without raising, when no string
    row of "klines" starts with the requested day, and when the row that
    does has fewer than seven fields. *)
Theorem EastMoney_row_absent `{Builtins} (symbol : string) (d : date) (rows : list json) :
  match find_target (strftime_Ymd d) rows with
  | None => True
  | Some target => (length (split "," target) < 7)%nat
  end →
  EastMoney_parse_payload symbol d (JDict [("data", JDict [("klines", JList rows)])]) = Ok None.
Proof.
  intros Htarget. unfold EastMoney_parse_payload. simpl.
  destruct rows as [|row rows]; simpl; [done|].
  destruct (find_target _ _) as [target|]; [|done].
  destruct (split "," target) as [|f1 [|f2 [|f3 [|f4 [|f5 [|f6 [|f7 fs]]]]]]];
    simpl in *; try done; lia.
Qed.

Lemma EastMoney_row_absent_witness :
  EastMoney_parse_payload (H := example_builtins) "000001" (date_of_ymd 2024 1 2)
    (JDict [("data", JDict [("klines", JList [JInt 7; JStr "2024-01-02,10.0,10.5"])])])
  = Ok None.
Proof.
  apply (EastMoney_row_absent (H := example_builtins) "000001" (date_of_ymd 2024 1 2)
           [JInt 7; JStr "2024-01-02,10.0,10.5"]).
  vm_compute. lia.
Defined.

(** ** A fetcher of network providers *)

(** X11: closing a fetcher whose providers were all built by their
    constructor around one injected client closes every provider in turn,
    does not raise, and leaves the network as it was: the shared client is
    never closed. *)
Theorem fetcher_close_injected_clients `{Builtins} {X} (settings : Settings)
    (AsyncClient : Q → HttpClient X) (client : HttpClient X)
    (nps : list (NetProvider X)) (w : world (net_world X)) :
  Forall (fun self => ∃ k priority rate_limiter,
            NetProvider_init settings k priority (Some client) rate_limiter = Ok self) nps →
  let self := DailyFetcher_init (map (as_provider AsyncClient) nps) in
  fetcher_close self w
  = (Ok tt, mk_world (ext w) (db w) (trace w ++ closed (_providers self))).
Proof.
  intros Hnps self.
  assert (Hall : Forall (fun p => ∀ x, close p x = (Ok tt, x)) (_providers self)).
  { apply List.Forall_forall. intros p Hp.
    apply (Permutation_in _ (sorted_by_Permutation _ _)) in Hp.
    apply in_map_iff in Hp as (np & <- & Hnp).
    rewrite List.Forall_forall in Hnps.
    destruct (Hnps np Hnp) as (k & priority & rate_limiter & Hinit).
    intros x. simpl. by eapply net_close_of_init. }
  unfold fetcher_close. revert Hall. generalize (_providers self) as ps. clear.
  intros ps Hall. revert w. induction Hall as [|p ps Hp _ IH]; intros w; simpl.
  { destruct w. by rewrite app_nil_r. }
  unfold bind at 1. unfold bind at 1. unfold log, ext_op; simpl.
  rewrite Hp, IH. simpl. by rewrite <- app_assoc.
Qed.

Lemma fetcher_close_injected_clients_witness :
  ∃ qq em,
    NetProvider_init example_settings QQ 10 (Some (canned_client JNull)) None = Ok qq ∧
    NetProvider_init example_settings EastMoney 5 (Some (canned_client JNull)) None = Ok em ∧
    fetcher_close
      (DailyFetcher_init
         (map (as_provider (H := example_builtins) (fun _ => canned_client JNull)) [em; qq]))
      (mk_world (mk_net tt []) (mk_db [] []) [])
    = (Ok tt, mk_world (mk_net tt []) (mk_db [] []) [EvClose "qq" 10; EvClose "eastmoney" 5]).
Proof.
  eexists _, _. split; [reflexivity|]. split; [reflexivity|].
  refine (fetcher_close_injected_clients (H := example_builtins) example_settings
            (fun _ => canned_client JNull) (canned_client JNull) _
            (mk_world (mk_net tt []) (mk_db [] []) []) _).
  constructor; [eexists EastMoney, 5%Z, None; reflexivity|].
  constructor; [eexists QQ, 10%Z, None; reflexivity|].
  constructor.
Defined.

(** ** The fetcher *)

(** *** Strict comparisons of floats *)

Lemma SFcompare_None_sym x y : SFcompare x y = None → SFcompare y x = None.
Proof.
  intros Hxy. destruct (SFcompare y x) as [c|] eqn:Hyx; [|done].
  apply SFcompare_antisym in Hyx. congruence.
Qed.

Lemma float_lt_gt x y : float_lt x y = float_gt y x.
Proof.
  unfold float_lt, SFltb, float_gt.
  destruct (SFcompare x y) as [c|] eqn:Hxy.
  - rewrite (SFcompare_antisym _ _ _ Hxy). by destruct c.
  - by rewrite (SFcompare_None_sym _ _ Hxy).
Qed.

Lemma float_gt_irrefl x : float_gt x x = false.
Proof.
  unfold float_gt. destruct (SFcompare x x) as [[]|] eqn:Hx; try done.
  pose proof (SFcompare_antisym _ _ _ Hx). simpl in *. congruence.
Qed.

Lemma finite_compare_trans_strict (e1 e2 e3 : Z) (m1 m2 m3 : positive) :
  let cmp e m e' m' :=
    match (e ?= e')%Z with Lt => Lt | Gt => Gt | Eq => (m ?= m')%positive end in
  (cmp e1 m1 e2 m2 = Gt → cmp e2 m2 e3 m3 = Gt → cmp e1 m1 e3 m3 = Gt) ∧
  (cmp e1 m1 e2 m2 = Lt → cmp e2 m2 e3 m3 = Lt → cmp e1 m1 e3 m3 = Lt).
Proof.
  simpl.
  destruct (Z.compare_spec e1 e2), (Z.compare_spec e2 e3), (Z.compare_spec e1 e3);
    destruct (Pos.compare_spec m1 m2), (Pos.compare_spec m2 m3), (Pos.compare_spec m1 m3);
    split; intros; try congruence; try lia.
Qed.

Lemma float_gt_trans x y z :
  float_gt x y = true → float_gt y z = true → float_gt x z = true.
Proof.
  unfold float_gt.
  destruct x as [sx|sx| |sx mx ex], y as [sy|sy| |sy my ey], z as [sz|sz| |sz mz ez];
    simpl; try done;
    try (by destruct sx); try (by destruct sy); try (by destruct sz);
    try (by destruct sx, sy); try (by destruct sy, sz); try (by destruct sx, sz);
    try (by destruct sx, sy, sz).
  change (Pos.compare_cont Eq ?a ?b) with (Pos.compare a b).
  pose proof (finite_compare_trans_strict ex ey ez mx my mz) as [HG HL]. simpl in HL, HG.
  destruct sx, sy, sz; try done.
  - destruct (ex ?= ey)%Z, (mx ?= my)%positive, (ey ?= ez)%Z, (my ?= mz)%positive,
      (ex ?= ez)%Z, (mx ?= mz)%positive; simpl in *; try done;
      try (by specialize (HL eq_refl eq_refl)).
  - destruct (ex ?= ey)%Z, (mx ?= my)%positive, (ey ?= ez)%Z, (my ?= mz)%positive,
      (ex ?= ez)%Z, (mx ?= mz)%positive; simpl in *; try done;
      try (by specialize (HG eq_refl eq_refl)).
Qed.

(** *** [max] and [min] again *)

(** No item is above the result of [max]. *)
Lemma py_max_fold_no_greater rest : ∀ seen x,
  Forall (fun y => float_gt y x = false) seen →
  Forall (fun y => float_gt y (py_max x rest) = false) (seen ++ rest).
Proof.
  unfold py_max. induction rest as [|y rest IH]; intros seen x Hseen; simpl.
  { by rewrite app_nil_r. }
  replace (seen ++ y :: rest) with ((seen ++ [y]) ++ rest) by by rewrite <- app_assoc.
  apply IH. apply Forall_app. split.
  - destruct (float_gt y x) eqn:Hyx; [|done].
    eapply Forall_impl; [exact Hseen|]. intros d Hd. simpl in Hd.
    destruct (float_gt d y) eqn:Hdy; [|done].
    by rewrite (float_gt_trans _ _ _ Hdy Hyx) in Hd.
  - constructor; [|constructor].
    destruct (float_gt y x) eqn:Hyx; [apply float_gt_irrefl | done].
Qed.

Lemma py_max_fixed m rest :
  Forall (fun y => float_gt y m = false) rest → py_max m rest = m.
Proof.
  unfold py_max. induction 1 as [|y rest Hy _ IH]; simpl; [done|]. by rewrite Hy.
Qed.

Lemma py_max_idem x rest : py_max (py_max x rest) rest = py_max x rest.
Proof. apply py_max_fixed. apply (py_max_fold_no_greater rest [] x). constructor. Qed.

Lemma py_min_idem x rest : py_min (py_min x rest) rest = py_min x rest.
Proof.
  assert (Hdual : ∀ rest seen x,
            Forall (fun y => float_lt y x = false) seen →
            Forall (fun y => float_lt y (py_min x rest) = false) (seen ++ rest)).
  { unfold py_min. clear. induction rest as [|y rest IH]; intros seen x Hseen; simpl.
    { by rewrite app_nil_r. }
    replace (seen ++ y :: rest) with ((seen ++ [y]) ++ rest) by by rewrite <- app_assoc.
    apply IH. apply Forall_app. split.
    - destruct (float_lt y x) eqn:Hyx; [|done].
      eapply Forall_impl; [exact Hseen|]. intros d Hd. simpl in Hd.
      destruct (float_lt d y) eqn:Hdy; [|done].
      rewrite float_lt_gt in Hd, Hdy, Hyx.
      by rewrite (float_gt_trans _ _ _ Hyx Hdy) in Hd.
    - constructor; [|constructor].
      destruct (float_lt y x) eqn:Hyx; [|done].
      rewrite float_lt_gt. apply float_gt_irrefl. }
  pose proof (Hdual rest [] x (List.Forall_nil _)) as Hall. simpl in Hall.
  unfold py_min in *. revert Hall. generalize (fold_left
    (fun m item => if float_lt item m then item else m) rest x) as m.
  intros m. induction 1 as [|y rest' Hy _ IH]; simpl; [done|]. by rewrite Hy.
Qed.

(** X12: [_clean] is idempotent: a cleaned bar is left as it is by a second
    cleaning, NaN prices included. *)
Theorem _clean_idempotent (r : ProviderResult) : _clean (_clean r) = _clean r.
Proof.
  unfold _clean. simpl.
  assert (Hopen : float_or (float_or (PR.open r) (PR.close r)) (PR.close r)
                  = float_or (PR.open r) (PR.close r)).
  { unfold float_or. destruct (float_truthy (PR.open r)) eqn:Ho; [by rewrite Ho|].
    by destruct (float_truthy (PR.close r)). }
  assert (Hzero : ∀ v, (if float_truthy (if float_truthy v then v else float_of_Z 0)
                        then if float_truthy v then v else float_of_Z 0
                        else float_of_Z 0)
                       = if float_truthy v then v else float_of_Z 0).
  { intros v. destruct (float_truthy v) eqn:Hv; [by rewrite Hv | done]. }
  by rewrite Hopen, py_max_idem, py_min_idem, !Hzero.
Qed.

Section FetchOutcomes.
Context {X : Type}.
Implicit Types (f : DailyFetcher X) (w : world X).

(** Every way the loop over the providers can end. *)
Lemma fetch_loop_outcome ps symbol d w :
  match fetch_loop ps symbol d w with
  | (Ok (Some b), w') =>
      ∃ l1 p l2 r x1,
        ps = l1 ++ p :: l2 ∧ all_miss symbol d l1 (ext w) x1 ∧
        fetch_daily p symbol d x1 = (Ok (Some r), ext w') ∧ b = _clean r
  | (Ok None, w') => all_miss symbol d ps (ext w) (ext w')
  | (Raise e, w') =>
      isinstance e [Exception] = false ∧
      ∃ l1 p l2 x1,
        ps = l1 ++ p :: l2 ∧ all_miss symbol d l1 (ext w) x1 ∧
        fetch_daily p symbol d x1 = (Raise e, ext w')
  end.
Proof.
  revert w. induction ps as [|q qs IH]; intros w; simpl; [constructor|].
  ask_provider.
  destruct (fetch_daily q symbol d (ext w)) as [[[r|]|e] x1] eqn:Hq.
  - exists [], q, qs, r, (ext w). by repeat split; [constructor|..].
  - specialize (IH (mk_world x1 (db w)
                      (trace w ++ [EvFetchDaily (name q) (priority q) symbol d]))).
    destruct (fetch_loop qs symbol d _) as [[[b|]|e] w']; simpl in IH.
    + destruct IH as (l1 & p & l2 & r & x2 & -> & Hmiss & Hp & ->).
      exists (q :: l1), p, l2, r, x2. repeat split; [|done].
      eapply all_miss_cons; [exact Hq | by left | done].
    + eapply all_miss_cons; [exact Hq | by left | done].
    + destruct IH as (Hexc & l1 & p & l2 & x2 & -> & Hmiss & Hp).
      split; [done|]. exists (q :: l1), p, l2, x2. repeat split; [|done].
      eapply all_miss_cons; [exact Hq | by left | done].
  - destruct (isinstance e [Exception]) eqn:Hexc.
    + specialize (IH (mk_world x1 (db w)
                        (trace w ++ [EvFetchDaily (name q) (priority q) symbol d]))).
      assert (Hmq : is_miss (Raise e : res (option ProviderResult))).
      { right. by exists e. }
      destruct (fetch_loop qs symbol d _) as [[[b|]|e'] w']; simpl in IH.
      * destruct IH as (l1 & p & l2 & r & x2 & -> & Hmiss & Hp & ->).
        exists (q :: l1), p, l2, r, x2. repeat split; [|done].
        eapply all_miss_cons; [exact Hq | done | done].
      * eapply all_miss_cons; [exact Hq | done | done].
      * destruct IH as (Hexc' & l1 & p & l2 & x2 & -> & Hmiss & Hp).
        split; [done|]. exists (q :: l1), p, l2, x2. repeat split; [|done].
        eapply all_miss_cons; [exact Hq | done | done].
    + split; [done|]. exists [], q, qs, (ext w). by repeat split; [constructor|..].
Qed.

End FetchOutcomes.

(** X13: whatever [fetch] does, it is one of three things: it returns the
    cleaned bar of the first provider that has one, all providers before it
    having missed; it returns None, all providers having missed; or it
    raises what a provider raised, which is then not an [Exception], all
    providers before that one having missed. *)
Theorem fetch_outcome {X} (f : DailyFetcher X) (symbol : string) (d : date) (w : world X) :
  match fetch f symbol d w with
  | (Ok (Some b), w') =>
      ∃ l1 p l2 r x1,
        _providers f = l1 ++ p :: l2 ∧ all_miss symbol d l1 (ext w) x1 ∧
        fetch_daily p symbol d x1 = (Ok (Some r), ext w') ∧ b = _clean r
  | (Ok None, w') => all_miss symbol d (_providers f) (ext w) (ext w')
  | (Raise e, w') =>
      isinstance e [Exception] = false ∧
      ∃ l1 p l2 x1,
        _providers f = l1 ++ p :: l2 ∧ all_miss symbol d l1 (ext w) x1 ∧
        fetch_daily p symbol d x1 = (Raise e, ext w')
  end.
Proof.
  rewrite fetch_unfold.
  pose proof (fetch_loop_outcome (_providers f) symbol d
                (mk_world (ext w) (db w) (trace w ++ [EvFetch symbol d]))) as Hloop.
  destruct (fetch_loop _ _ _ _) as [[[b|]|e] w']; simpl in *; done.
Qed.

(** X14: an exception of a provider that is not an [Exception] (a
    cancellation, a keyboard interrupt) leaves [fetch]: the providers after
    that one are not asked and no result is logged. *)
Theorem fetch_propagates_non_Exception {X} (f : DailyFetcher X) (symbol : string)
    (d : date) (w : world X) (l1 l2 : list (Provider X)) (p : Provider X) (e : exn)
    (x1 x2 : X) :
  _providers f = l1 ++ p :: l2 →
  all_miss symbol d l1 (ext w) x1 →
  fetch_daily p symbol d x1 = (Raise e, x2) →
  isinstance e [Exception] = false →
  fetch f symbol d w
  = (Raise e,
     mk_world x2 (db w) (trace w ++ EvFetch symbol d :: consulted symbol d (l1 ++ [p]))).
Proof.
  intros Hps Hmiss Hp Hexc.
  rewrite fetch_unfold, Hps.
  rewrite (fetch_loop_propagates _ _ _ _ _ _ _ _ _ _ _ Hmiss Hp Hexc).
  by rewrite <- app_assoc.
Qed.

Lemma fetch_propagates_non_Exception_witness :
  let e := mk_exn CancelledError "cancelled" in
  let A := constant_provider "A" 10 (Raise e) in
  let B := constant_provider "B" 5
             (Ok (Some (sample_bar (float_of_Z 10) (float_of_Z 11) (float_of_Z 9)
                          (float_of_Z 10)))) in
  let d := date_of_ymd 2024 1 2 in
  fetch (DailyFetcher_init [B; A]) "000001" d empty_world
  = (Raise e, mk_world tt (mk_db [] []) [EvFetch "000001" d; EvFetchDaily "A" 10 "000001" d]).
Proof.
  intros e A B d.
  exact (fetch_propagates_non_Exception (DailyFetcher_init [B; A]) "000001" d empty_world
           [] [B] A e tt tt eq_refl (all_miss_nil _ _ _) eq_refl eq_refl).
Defined.

(** ** The upserts of the storage *)

(** *** An upsert that sets every column but the key *)

Section KeyedUpsert.
Context {R K : Type} `{EqDecision K} (key : R → K) (set_columns : R → R → R).
Hypothesis key_kept : ∀ row excluded, key (set_columns row excluded) = key row.
Hypothesis columns_set :
  ∀ row excluded, key row = key excluded → set_columns row excluded = excluded.

Local Abbreviation upsert := (keyed_upsert key set_columns).
Local Abbreviation upsert_all :=
  (fun records table => fold_left (fun t r => upsert r t) records table).

Lemma keyed_upsert_keys r t :
  map key (upsert r t)
  = if decide (key r ∈ map key t) then map key t else map key t ++ [key r].
Proof using All.
  induction t as [|row t IH]; simpl.
  { done. }
  destruct (decide (key row = key r)) as [Heq|Hne]; simpl.
  - rewrite key_kept, decide_True; [done | rewrite Heq; by left].
  - rewrite IH. destruct (decide (key r ∈ map key t)) as [Hin|Hnin].
    + rewrite decide_True; [done | by right].
    + rewrite decide_False; [done|]. by intros [?|?]%elem_of_cons.
Qed.

Lemma keyed_upsert_elem_of r t k :
  k ∈ map key (upsert r t) ↔ k ∈ map key t ∨ k = key r.
Proof using All.
  rewrite keyed_upsert_keys. destruct (decide (key r ∈ map key t)) as [Hin|Hnin].
  - split; [by left | by intros [?| ->]].
  - rewrite elem_of_app, list_elem_of_singleton. done.
Qed.

Lemma keyed_upsert_NoDup r t : NoDup (map key t) → NoDup (map key (upsert r t)).
Proof using All.
  intros Hnd. rewrite keyed_upsert_keys. destruct (decide _) as [Hin|Hnin]; [done|].
  apply NoDup_app. split; [done|]. split; [|apply NoDup_singleton].
  intros k Hk ->%list_elem_of_singleton. done.
Qed.

Lemma keyed_upsert_all_elem_of records t k :
  k ∈ map key (upsert_all records t) ↔ k ∈ map key t ∨ k ∈ map key records.
Proof using All.
  revert t. induction records as [|r records IH]; intros t; simpl.
  { split; [by left | by intros [?|?%elem_of_nil]]. }
  rewrite IH, keyed_upsert_elem_of, elem_of_cons. tauto.
Qed.

Lemma keyed_upsert_all_NoDup records t :
  NoDup (map key t) → NoDup (map key (upsert_all records t)).
Proof using All.
  revert t. induction records as [|r records IH]; intros t Hnd; simpl; [done|].
  by apply IH, keyed_upsert_NoDup.
Qed.

Lemma keyed_upsert_own_key r t :
  NoDup (map key t) → filter (fun row => key row = key r) (upsert r t) = [r].
Proof using All.
  induction t as [|row t IH]; intros Hnd; simpl.
  { by rewrite filter_cons_True. }
  apply NoDup_cons in Hnd as [Hrow Hnd].
  destruct (decide (key row = key r)) as [Heq|Hne].
  - rewrite filter_cons_True by by rewrite key_kept.
    rewrite (columns_set _ _ Heq). f_equal.
    apply filter_none, Forall_forall. intros row' Hin Hkey.
    apply Hrow. rewrite Heq, <- Hkey. by apply list_elem_of_fmap_2.
  - rewrite filter_cons_False by done. by apply IH.
Qed.

Lemma keyed_upsert_other_key r t k :
  k ≠ key r →
  filter (fun row => key row = k) (upsert r t) = filter (fun row => key row = k) t.
Proof using All.
  intros Hk. induction t as [|row t IH]; simpl.
  { by rewrite filter_cons_False. }
  destruct (decide (key row = key r)) as [Heq|Hne].
  - rewrite !filter_cons_False; [done | congruence | rewrite key_kept; congruence].
  - destruct (decide (key row = k)).
    + by rewrite !filter_cons_True, IH.
    + by rewrite !filter_cons_False.
Qed.

Lemma keyed_upsert_all_other_keys records t k :
  Forall (fun r => key r ≠ k) records →
  filter (fun row => key row = k) (upsert_all records t) = filter (fun row => key row = k) t.
Proof using All.
  intros Hall. revert t. induction Hall as [|r records Hr _ IH]; intros t; simpl; [done|].
  rewrite IH. by apply keyed_upsert_other_key.
Qed.

Lemma keyed_upsert_all_last_wins earlier r later t :
  NoDup (map key t) →
  Forall (fun r' => key r' ≠ key r) later →
  filter (fun row => key row = key r) (upsert_all (earlier ++ r :: later) t) = [r].
Proof using All.
  intros Hnd Hlater. rewrite fold_left_app. simpl.
  rewrite keyed_upsert_all_other_keys by done.
  by apply keyed_upsert_own_key, keyed_upsert_all_NoDup.
Qed.

(** A second record for a key replaces the first. *)
Lemma keyed_upsert_absorbs a b t :
  key a = key b → upsert b (upsert a t) = upsert b t.
Proof using All.
  intros Hab. induction t as [|row t IH]; simpl.
  - rewrite decide_True by done. by rewrite columns_set.
  - destruct (decide (key row = key a)) as [Ha|Ha]; simpl.
    + rewrite !decide_True by (rewrite ?key_kept; congruence).
      rewrite !columns_set; [done | congruence | rewrite key_kept; congruence].
    + rewrite decide_False by congruence. simpl.
      rewrite decide_False by congruence. by rewrite IH.
Qed.

(** Records for two keys, one of which the table has, can be written in
    either order. *)
Lemma keyed_upsert_comm a b t :
  key a ≠ key b → key a ∈ map key t → upsert a (upsert b t) = upsert b (upsert a t).
Proof using All.
  intros Hab. induction t as [|row t IH]; simpl; intros Hin.
  { by apply elem_of_nil in Hin. }
  assert (Hkb : ∀ c, key (set_columns row c) = key row) by (intros c; apply key_kept).
  destruct (decide (key row = key b)) as [Hb|Hb], (decide (key row = key a)) as [Ha|Ha];
    simpl; repeat case_decide; try congruence;
    try (exfalso; rewrite Hkb in *; congruence).
  rewrite IH; [done|]. apply elem_of_cons in Hin as [?|?]; [congruence | done].
Qed.

Lemma keyed_upsert_all_after r records : ∀ t,
  Forall (fun a => key a ∈ map key t) records →
  upsert r (upsert_all records (upsert r t)) = upsert r (upsert_all records t).
Proof using All.
  induction records as [|a records IH]; intros t Hall; simpl.
  { by apply keyed_upsert_absorbs. }
  apply Forall_cons in Hall as [Ha Hall].
  assert (Hkeys : Forall (fun a' => key a' ∈ map key (upsert a t)) records).
  { eapply Forall_impl; [exact Hall|]. intros a' Ha'. simpl in *.
    apply keyed_upsert_elem_of. by left. }
  destruct (decide (key a = key r)) as [Heq|Hne].
  - by rewrite keyed_upsert_absorbs.
  - rewrite keyed_upsert_comm by done. by apply IH.
Qed.

(** Writing a batch a second time changes nothing. *)
Lemma keyed_upsert_all_idempotent records t :
  upsert_all records (upsert_all records t) = upsert_all records t.
Proof using All.
  revert t. induction records as [|r records IH] using rev_ind; intros t; [done|].
  rewrite !fold_left_app. simpl.
  assert (Hkeys : Forall (fun a => key a ∈ map key (upsert_all records t)) records).
  { apply Forall_forall. intros a Ha. apply keyed_upsert_all_elem_of. right.
    by apply list_elem_of_fmap_2. }
  by rewrite keyed_upsert_all_after, IH.
Qed.

End KeyedUpsert.

(** *** Table daily_bars *)

(** *** Table daily_bars *)

Lemma set_bar_columns_key row excluded :
  row_key (set_bar_columns row excluded) = row_key row.
Proof. done. Qed.

Lemma set_bar_columns_all row excluded :
  row_key row = row_key excluded → set_bar_columns row excluded = excluded.
Proof. destruct row, excluded. unfold row_key, set_bar_columns. simpl. by intros [= -> ->]. Qed.

Lemma upsert_row_keyed r t : upsert_row r t = keyed_upsert row_key set_bar_columns r t.
Proof.
  induction t as [|row t IH]; simpl; [done|].
  destruct (same_key row r) eqn:Hkey.
  - apply same_key_spec in Hkey. by rewrite decide_True.
  - rewrite decide_False, IH; [done|]. intros Heq%same_key_spec. congruence.
Qed.

Lemma executemany_upsert_keyed records t :
  executemany_upsert records t
  = fold_left (fun t r => keyed_upsert row_key set_bar_columns r t) records t.
Proof.
  unfold executemany_upsert. revert t.
  induction records as [|r records IH]; intros t; simpl; [done|].
  by rewrite upsert_row_keyed, IH.
Qed.

Lemma executemany_upsert_idempotent records t :
  executemany_upsert records (executemany_upsert records t) = executemany_upsert records t.
Proof.
  rewrite !executemany_upsert_keyed.
  apply keyed_upsert_all_idempotent;
    [apply set_bar_columns_key | apply set_bar_columns_all].
Qed.

Lemma executemany_upsert_elem_of records t k :
  k ∈ map row_key (executemany_upsert records t) ↔ k ∈ map row_key t ∨ k ∈ map row_key records.
Proof.
  rewrite executemany_upsert_keyed.
  apply keyed_upsert_all_elem_of; [apply set_bar_columns_key | apply set_bar_columns_all].
Qed.



Section DailyBarsFacts.
Context `{Builtins} {X : Type}.
Implicit Types (w : world X) (bars : list ProviderResult).

Lemma daily_bars_after_upsert bars w :
  ∃ written,
    (written = bars ∨ written = []) ∧
    daily_bars (db (snd (upsert_daily_bars bars w)))
    = executemany_upsert (map stored_record written) (daily_bars (db w)).
Proof.
  destruct (upsert_daily_bars_db bars w) as (written & Hwritten & -> & _).
  by exists written.
Qed.


Lemma stored_record_keys bars : map row_key (map stored_record bars) = map bar_key bars.
Proof. by rewrite map_map. Qed.

End DailyBarsFacts.

(** X15: writing the same batch of bars a second time leaves the database
    as the first write left it. *)
Theorem upsert_daily_bars_idempotent `{Builtins} {X} (bars : list ProviderResult)
    (w : world X) :
  let w1 := snd (upsert_daily_bars bars w) in
  db (snd (upsert_daily_bars bars w1)) = db w1.
Proof.
  intros w1. unfold w1. destruct (existsb has_nan bars) eqn:Hbars.
  - destruct (upsert_daily_bars_raises bars w Hbars) as (e & Hrun & _).
    rewrite Hrun. simpl. by rewrite Hrun.
  - rewrite !upsert_daily_bars_unfold by done. simpl.
    by rewrite executemany_upsert_idempotent.
Qed.


(** X17: [upsert_daily_bars] leaves every row alone whose key is not the key
    of a bar of the batch. *)
Theorem upsert_daily_bars_other_rows `{Builtins} {X} (bars : list ProviderResult)
    (w : world X) (k : string * string) :
  k ∉ map bar_key bars →
  filter (fun row => row_key row = k) (daily_bars (db (snd (upsert_daily_bars bars w))))
  = filter (fun row => row_key row = k) (daily_bars (db w)).
Proof.
  intros Hk. destruct (daily_bars_after_upsert bars w) as (written & [->| ->] & ->); [|done].
  apply executemany_upsert_other_keys.
  apply Forall_forall. intros r Hr Heq. apply Hk.
  rewrite <- stored_record_keys, <- Heq. by apply list_elem_of_fmap_2.
Qed.

Lemma upsert_daily_bars_other_rows_witness :
  let old := sample_bar (float_of_Z 10) (float_of_Z 11) (float_of_Z 9) (float_of_Z 10) in
  let new := PR.mk "600000" (date_of_ymd 2024 1 2) (float_of_Z 7) (float_of_Z 8)
               (float_of_Z 6) (float_of_Z 7) (float_of_Z 1) (float_of_Z 1) JNull in
  let w := snd (upsert_daily_bars (H := example_builtins) [old] empty_world) in
  filter (fun row => row_key row = ("000001", "2024-01-02"))
         (daily_bars (db (snd (upsert_daily_bars (H := example_builtins) [new] w))))
  = filter (fun row => row_key row = ("000001", "2024-01-02")) (daily_bars (db w)).
Proof.
  intros old new w.
  apply (upsert_daily_bars_other_rows (H := example_builtins) [new] w
           ("000001", "2024-01-02")).
  vm_compute. intros Hin. apply list_elem_of_In in Hin. simpl in Hin.
  destruct Hin as [Heq|[]]. discriminate Heq.
Defined.



(** X19: bars written for other symbols do not change the missing days of a
    symbol. *)
Theorem missing_daily_dates_other_symbol `{Builtins} {X} (symbol : string)
    (dates : list date) (bars : list ProviderResult) (w : world X) :
  Forall (fun b => PR.symbol b ≠ symbol) bars →
  fst (missing_daily_dates symbol dates (snd (upsert_daily_bars bars w)))
  = fst (missing_daily_dates symbol dates w).
Proof.
  intros Hbars. rewrite !missing_daily_dates_unfold. simpl. f_equal.
  apply list_filter_iff. intros d.
  assert (Hsame : stored (daily_bars (db (snd (upsert_daily_bars bars w)))) symbol d
                  = stored (daily_bars (db w)) symbol d); [|by rewrite Hsame].
  destruct (daily_bars_after_upsert bars w) as (written & Hwritten & ->).
  apply eq_true_iff_eq. rewrite !stored_spec.
  rewrite executemany_upsert_elem_of, stored_record_keys.
  split; [|by left]. intros [?|Hin]; [done|].
  destruct Hwritten as [->| ->]; [|by apply elem_of_nil in Hin].
  apply list_elem_of_fmap in Hin as (b & Hkey & Hb).
  rewrite Forall_forall in Hbars. specialize (Hbars b Hb).
  unfold bar_key in Hkey. congruence.
Qed.

Lemma missing_daily_dates_other_symbol_witness :
  let other := PR.mk "600000" (date_of_ymd 2024 1 2) (float_of_Z 7) (float_of_Z 8)
                 (float_of_Z 6) (float_of_Z 7) (float_of_Z 1) (float_of_Z 1) JNull in
  fst (missing_daily_dates "000001" [date_of_ymd 2024 1 2]
         (snd (upsert_daily_bars (H := example_builtins) [other] empty_world)))
  = fst (missing_daily_dates "000001" [date_of_ymd 2024 1 2] empty_world).
Proof.
  intros other.
  apply (missing_daily_dates_other_symbol (H := example_builtins) "000001"
           [date_of_ymd 2024 1 2] [other] empty_world).
  constructor; [discriminate | constructor].
Defined.

(** *** Tables securities and adjustment_factors *)

Lemma security_record_symbols (securities : list Security) :
  map s_symbol (map security_record securities) = map Sec.symbol securities.
Proof. by rewrite map_map. Qed.

Lemma upsert_securities_unfold (securities : list Security) (table : list security_row) :
  upsert_securities securities table
  = fold_left (fun t r => upsert_security_row r t) (map security_record securities) table.
Proof. unfold upsert_securities, _upsert_securities_sync. by destruct securities. Qed.

Lemma upsert_adjustment_factors_unfold (factors : list (string * date * float))
    (table : list factor_row) :
  upsert_adjustment_factors factors table
  = executemany_insert_factors
      (map (fun '(symbol, trade_date, value) =>
              mk_factor_row symbol (isoformat trade_date) value) factors)
      table.
Proof.
  unfold upsert_adjustment_factors, _upsert_adjustment_factors_sync. by destruct factors.
Qed.

Lemma executemany_insert_factors_ok (records : list factor_row) (table : list factor_row) :
  existsb (fun r => is_nan (f_factor r)) records = false →
  executemany_insert_factors records table
  = Ok (fold_left (fun t r => upsert_factor_row r t) (map stored_factor records) table).
Proof.
  revert table. induction records as [|r records IH]; intros table; simpl; [done|].
  intros [-> Hrest]%orb_false_iff. by apply IH.
Qed.

Lemma executemany_insert_factors_raises (records : list factor_row) (table : list factor_row) :
  existsb (fun r => is_nan (f_factor r)) records = true →
  ∃ e, executemany_insert_factors records table = Raise e ∧ exn_class e = IntegrityError.
Proof.
  revert table. induction records as [|r records IH]; intros table; simpl; [done|].
  destruct (is_nan (f_factor r)); [by eexists | apply IH].
Qed.

(** X20: [upsert_securities] keeps the symbols of table securities unique and
    deletes none; of several securities with one symbol in the batch, the
    last is the one stored, with all its columns; a second write of the same
    batch changes nothing. *)
Theorem upsert_securities_last_write_wins (securities : list Security)
    (table : list security_row) :
  NoDup (map s_symbol table) →
  let table' := upsert_securities securities table in
  NoDup (map s_symbol table') ∧
  (∀ symbol, symbol ∈ map s_symbol table'
             ↔ symbol ∈ map s_symbol table ∨ symbol ∈ map Sec.symbol securities) ∧
  (∀ earlier security later,
     securities = earlier ++ security :: later →
     Forall (fun s => Sec.symbol s ≠ Sec.symbol security) later →
     filter (fun row => s_symbol row = Sec.symbol security) table'
     = [security_record security]) ∧
  upsert_securities securities table' = table'.
Proof.
  intros Hnd table'. unfold table'. rewrite !upsert_securities_unfold.
  unfold upsert_security_row.
  assert (Hkey : ∀ row excluded : security_row,
            s_symbol (mk_security_row (s_symbol row) (s_name excluded) (s_asset_type excluded)
                        (s_listed_date excluded) (s_delisted_date excluded))
            = s_symbol row) by done.
  assert (Hall : ∀ row excluded : security_row,
            s_symbol row = s_symbol excluded →
            mk_security_row (s_symbol row) (s_name excluded) (s_asset_type excluded)
              (s_listed_date excluded) (s_delisted_date excluded) = excluded).
  { intros row [] Heq. simpl in *. by rewrite Heq. }
  split; [by apply keyed_upsert_all_NoDup|].
  split.
  { intros symbol. rewrite <- security_record_symbols.
    by apply (keyed_upsert_all_elem_of s_symbol _ Hkey Hall). }
  split; [|by apply (keyed_upsert_all_idempotent s_symbol _ Hkey Hall)].
  intros earlier security later -> Hlater. rewrite map_app. simpl.
  apply (keyed_upsert_all_last_wins s_symbol _ Hkey Hall
           (map security_record earlier) (security_record security)
           (map security_record later)); [done|].
  apply Forall_fmap. eapply Forall_impl; [exact Hlater|]. done.
Qed.

Lemma upsert_securities_last_write_wins_witness :
  let old := Sec.mk "000001" "PAB" "stock" None None in
  let new := Sec.mk "000001" "Ping An Bank" "stock" (Some (date_of_ymd 1991 4 3)) None in
  filter (fun row => s_symbol row = "000001") (upsert_securities [old; new] [])
  = [mk_security_row "000001" "Ping An Bank" "stock" (Some "1991-04-03") None].
Proof.
  intros old new.
  exact (proj1 (proj2 (proj2 (upsert_securities_last_write_wins [old; new] []
                                (NoDup_nil_2 (A := string)))))
           [old] new [] eq_refl (List.Forall_nil _)).
Defined.

(** X21: [upsert_adjustment_factors] returns exactly when no factor of the
    batch is NaN; it then keeps the keys (symbol, trade_date) of table
    adjustment_factors unique and deletes none, of several factors for one
    symbol and day in the batch the last is the one stored (a negative zero
    as 0.0), and a second write of the same batch changes nothing.  With a
    NaN factor it raises IntegrityError. *)
Theorem upsert_adjustment_factors_last_write_wins
    (factors : list (string * date * float)) (table : list factor_row) :
  NoDup (map factor_key table) →
  match upsert_adjustment_factors factors table with
  | Ok table' =>
      existsb (fun '(_, _, value) => is_nan value) factors = false ∧
      NoDup (map factor_key table') ∧
      (∀ k, k ∈ map factor_key table'
            ↔ k ∈ map factor_key table
              ∨ k ∈ map (fun '(symbol, trade_date, _) => (symbol, isoformat trade_date))
                      factors) ∧
      (∀ earlier symbol trade_date value later,
         factors = earlier ++ (symbol, trade_date, value) :: later →
         Forall (fun '(s, d, _) => (s, isoformat d) ≠ (symbol, isoformat trade_date)) later →
         filter (fun row => factor_key row = (symbol, isoformat trade_date)) table'
         = [mk_factor_row symbol (isoformat trade_date) (sql_real value)] ∧
         holds_number (sql_real value) value) ∧
      upsert_adjustment_factors factors table' = Ok table'
  | Raise e =>
      existsb (fun '(_, _, value) => is_nan value) factors = true ∧
      exn_class e = IntegrityError
  end.
Proof.
  intros Hnd. rewrite upsert_adjustment_factors_unfold.
  set (record := fun '(symbol, trade_date, value) =>
                   mk_factor_row symbol (isoformat trade_date) value).
  assert (Hnan : existsb (fun r => is_nan (f_factor r)) (map record factors)
                 = existsb (fun '(_, _, value) => is_nan value) factors).
  { clear. induction factors as [|[[] ?] factors IH]; simpl; [done | by rewrite IH]. }
  destruct (existsb (fun '(_, _, value) => is_nan value) factors) eqn:Hfactors.
  { destruct (executemany_insert_factors_raises (map record factors) table Hnan)
      as (e & -> & Hclass). done. }
  rewrite (executemany_insert_factors_ok _ _ Hnan).
  unfold upsert_factor_row.
  assert (Hkey : ∀ row excluded : factor_row,
            factor_key (mk_factor_row (f_symbol row) (f_trade_date row) (f_factor excluded))
            = factor_key row) by done.
  assert (Hall : ∀ row excluded : factor_row,
            factor_key row = factor_key excluded →
            mk_factor_row (f_symbol row) (f_trade_date row) (f_factor excluded) = excluded).
  { intros row [] [= Hs Hd]. simpl in *. by rewrite Hs, Hd. }
  assert (Hkeys : ∀ l : list (string * date * float),
            map factor_key (map stored_factor (map record l))
            = map (fun '(symbol, trade_date, _) => (symbol, isoformat trade_date)) l).
  { intros l. rewrite !map_map. apply map_ext. by intros [[] ?]. }
  split; [done|].
  split; [by apply keyed_upsert_all_NoDup|].
  split.
  { intros k. rewrite <- Hkeys. by apply (keyed_upsert_all_elem_of factor_key _ Hkey Hall). }
  split.
  - intros earlier symbol trade_date value later -> Hlater. split.
    + rewrite !map_app. simpl.
      apply (keyed_upsert_all_last_wins factor_key _ Hkey Hall
               (map stored_factor (map record earlier))
               (mk_factor_row symbol (isoformat trade_date) (sql_real value))
               (map stored_factor (map record later))); [done|].
      apply Forall_fmap, Forall_fmap. eapply Forall_impl; [exact Hlater|]. by intros [[] ?].
    + apply sql_real_holds.
      rewrite existsb_app in Hfactors. apply orb_false_iff in Hfactors as [_ Hrest].
      simpl in Hrest. by apply orb_false_iff in Hrest as [? _].
  - rewrite upsert_adjustment_factors_unfold, (executemany_insert_factors_ok _ _ Hnan).
    f_equal. by apply (keyed_upsert_all_idempotent factor_key _ Hkey Hall).
Qed.

Lemma upsert_adjustment_factors_last_write_wins_witness :
  let d := date_of_ymd 2024 1 2 in
  ∃ table',
    upsert_adjustment_factors [("000001", d, float_of_Z 1); ("000001", d, float_of_Z 2)] []
    = Ok table' ∧
    filter (fun row => factor_key row = ("000001", "2024-01-02")) table'
    = [mk_factor_row "000001" "2024-01-02" (float_of_Z 2)].
Proof.
  intros d.
  pose proof (upsert_adjustment_factors_last_write_wins
                [("000001", d, float_of_Z 1); ("000001", d, float_of_Z 2)] []
                (NoDup_nil_2 (A := string * string))) as Hthm.
  destruct (upsert_adjustment_factors
              [("000001", d, float_of_Z 1); ("000001", d, float_of_Z 2)] [])
    as [table'|e] eqn:Hrun.
  - exists table'. split; [reflexivity|].
    destruct Hthm as (_ & _ & _ & Hlast & _).
    exact (proj1 (Hlast [("000001", d, float_of_Z 1)] "000001" d (float_of_Z 2) [] eq_refl
                    (List.Forall_nil _))).
  - vm_compute in Hrun. discriminate Hrun.
Defined.

(** *** The tracked symbols *)

Lemma insert_by_ltb_sorted (x : string) (l : list string) :
  Sorted (fun a b => String.leb a b = true) l →
  Sorted (fun a b => String.leb a b = true) (insert_by String.ltb x l).
Proof.
  assert (Hlt : ∀ a b, String.ltb a b = true → String.leb a b = true).
  { intros a b. unfold String.ltb, String.leb. by destruct (String.compare a b). }
  assert (Hge : ∀ a b, String.ltb a b = false → String.leb b a = true).
  { intros a b. unfold String.ltb, String.leb. rewrite (String.compare_antisym a b).
    by destruct (String.compare b a). }
  induction l as [|y l IH]; intros Hsorted; simpl.
  { by repeat constructor. }
  apply Sorted_inv in Hsorted as [Hl Hhd].
  destruct (String.ltb y x) eqn:Hyx.
  - constructor; [by apply IH|].
    destruct l as [|z l]; simpl.
    + constructor. by apply Hlt.
    + destruct (String.ltb z x); constructor; [by inversion Hhd | by apply Hlt].
  - constructor; [by constructor|]. constructor. by apply Hge.
Qed.

Lemma sorted_by_ltb_sorted (l : list string) :
  Sorted (fun a b => String.leb a b = true) (sorted_by String.ltb l).
Proof.
  unfold sorted_by. induction l as [|x l IH]; simpl; [constructor|].
  by apply insert_by_ltb_sorted.
Qed.

Lemma sorted_by_ltb_Permutation (l : list string) : Permutation (sorted_by String.ltb l) l.
Proof.
  unfold sorted_by. induction l as [|x l IH]; simpl; [done|].
  rewrite <- IH at 2. generalize (foldr (insert_by String.ltb) [] l) as sorted.
  clear. induction sorted as [|y sorted IH]; simpl; [done|].
  destruct (String.ltb y x); [|done]. rewrite IH. apply perm_swap.
Qed.

(** X22: [list_tracked_symbols] returns the symbols of table securities, each
    as often as the table has it, in ascending order; it changes neither the
    database nor the outside world. *)
Theorem list_tracked_symbols_sorted `{Builtins} {X} (w : world X) :
  ∃ symbols,
    list_tracked_symbols w
    = (Ok symbols, mk_world (ext w) (db w) (trace w ++ [EvSelectSymbols])) ∧
    Permutation symbols (securities (db w)) ∧
    Sorted (fun a b => String.leb a b = true) symbols.
Proof.
  exists (sorted_by String.ltb (securities (db w))).
  split; [done|]. split; [apply sorted_by_ltb_Permutation | apply sorted_by_ltb_sorted].
Qed.

(** ** The trading calendar *)

Lemma weekdays_loop_spec (n : nat) : ∀ (cursor : date) (calendar : list date),
  (toordinal cursor + Z.of_nat n ≤ MAXORDINAL)%Z →
  ∃ days,
    weekdays_loop n cursor calendar = Ok (calendar ++ days) ∧
    (∀ d, d ∈ days ↔ (toordinal cursor ≤ toordinal d < toordinal cursor + Z.of_nat n)%Z ∧
                     (weekday d < 5)%Z) ∧
    StronglySorted (fun a b => (toordinal a < toordinal b)%Z) days.
Proof.
  induction n as [|n IH]; intros cursor calendar Hmax.
  { exists []. simpl. rewrite app_nil_r. split; [done|]. split; [|constructor].
    intros d. split; [by intros ?%elem_of_nil | lia]. }
  cbn [weekdays_loop].
  rewrite (proj2 (Z.ltb_ge MAXORDINAL (toordinal cursor + 1))) by lia.
  destruct (IH (mk_date (toordinal cursor + 1))
              (if (weekday cursor <? 5)%Z then calendar ++ [cursor] else calendar))
    as (days & -> & Hmem & Hsorted); [simpl; lia|].
  simpl in Hmem.
  assert (Hcursor : ∀ d, d = cursor ↔ toordinal d = toordinal cursor).
  { intros [o]. destruct cursor as [c]. simpl. split; [by intros [= ->] | by intros ->]. }
  destruct (Z.ltb_spec (weekday cursor) 5) as [Hweek|Hweek].
  - exists (cursor :: days). split; [by rewrite <- app_assoc|]. split.
    + intros d. rewrite elem_of_cons, Hmem, Hcursor. split.
      * intros [Heq|[? ?]]; [|lia]. split; [lia|]. apply Hcursor in Heq. by subst.
      * intros [? ?]. destruct (decide (toordinal d = toordinal cursor)); [by left|].
        right. split; [lia | done].
    + constructor; [done|]. apply Forall_forall. intros d Hd%Hmem. lia.
  - exists days. split; [done|]. split; [|done].
    intros d. rewrite Hmem. split.
    + intros [? ?]. split; [lia | done].
    + intros [? ?]. split; [|done].
      destruct (decide (toordinal d = toordinal cursor)) as [Heq|]; [|lia].
      apply Hcursor in Heq. subst. lia.
Qed.

Lemma weekdays_loop_overflow (n : nat) : ∀ (cursor : date) (calendar : list date),
  (toordinal cursor + Z.of_nat n = MAXORDINAL)%Z →
  ∃ e, weekdays_loop (S n) cursor calendar = Raise e ∧ exn_class e = OverflowError.
Proof.
  induction n as [|n IH]; intros cursor calendar Hmax; cbn [weekdays_loop].
  - rewrite (proj2 (Z.ltb_lt MAXORDINAL (toordinal cursor + 1))) by lia. by eexists.
  - rewrite (proj2 (Z.ltb_ge MAXORDINAL (toordinal cursor + 1))) by lia.
    apply IH. simpl. lia.
Qed.

(** X23: for an end day before the last day that a date can hold,
    [_calendar_from_weekdays] returns, in ascending order and once each,
    exactly the days from start to end that are Monday to Friday; when start
    is after end the calendar is empty. *)
Theorem _calendar_from_weekdays_exact (start end_ : date) :
  (toordinal end_ < MAXORDINAL)%Z →
  ∃ calendar,
    _calendar_from_weekdays start end_ = Ok calendar ∧
    (∀ d, d ∈ calendar ↔ (toordinal start ≤ toordinal d ≤ toordinal end_)%Z ∧
                         (weekday d < 5)%Z) ∧
    StronglySorted (fun a b => (toordinal a < toordinal b)%Z) calendar.
Proof.
  intros Hend. unfold _calendar_from_weekdays.
  destruct (Z_lt_le_dec (toordinal end_) (toordinal start)) as [Hempty|Hle].
  { replace (Z.to_nat (toordinal end_ - toordinal start + 1)) with 0%nat by lia.
    exists []. split; [done|]. split; [|constructor].
    intros d. split; [by intros ?%elem_of_nil | lia]. }
  destruct (weekdays_loop_spec (Z.to_nat (toordinal end_ - toordinal start + 1)) start [])
    as (days & Hrun & Hmem & Hsorted); [lia|].
  exists days. split; [done|]. split; [|done].
  intros d. rewrite Hmem. split; intros [? ?]; (split; [lia | done]).
Qed.

Lemma _calendar_from_weekdays_exact_witness :
  ∃ calendar,
    _calendar_from_weekdays (date_of_ymd 2024 1 5) (date_of_ymd 2024 1 8) = Ok calendar ∧
    calendar = [date_of_ymd 2024 1 5; date_of_ymd 2024 1 8].
Proof.
  destruct (_calendar_from_weekdays_exact (date_of_ymd 2024 1 5) (date_of_ymd 2024 1 8))
    as (calendar & Hrun & _); [vm_compute; reflexivity|].
  exists calendar. split; [exact Hrun|].
  vm_compute in Hrun. by injection Hrun as <-.
Defined.

(** X24: [_calendar_from_weekdays] cannot end on the last day that a date
    can hold: stepping past it raises OverflowError, and no calendar is
    returned. *)
Theorem _calendar_from_weekdays_overflow (start end_ : date) :
  (toordinal start ≤ toordinal end_)%Z →
  toordinal end_ = MAXORDINAL →
  ∃ e, _calendar_from_weekdays start end_ = Raise e ∧ exn_class e = OverflowError.
Proof.
  intros Hle Hend. unfold _calendar_from_weekdays.
  replace (Z.to_nat (toordinal end_ - toordinal start + 1))
    with (S (Z.to_nat (toordinal end_ - toordinal start))) by lia.
  apply weekdays_loop_overflow. lia.
Qed.

Lemma _calendar_from_weekdays_overflow_witness :
  ∃ e, _calendar_from_weekdays (date_of_ymd 9999 12 30) (date_of_ymd 9999 12 31) = Raise e ∧
       exn_class e = OverflowError.
Proof.
  apply (_calendar_from_weekdays_overflow (date_of_ymd 9999 12 30) (date_of_ymd 9999 12 31)).
  - vm_compute. discriminate.
  - vm_compute. reflexivity.
Defined.


(** ** What the schedulers fetch, query and store *)

Section RunFacts.
Context `{Builtins} {X : Type}.
Implicit Types (w : world X) (f : DailyFetcher X) (tr : list event).

Lemma fetches_app tr1 tr2 : fetches (tr1 ++ tr2) = fetches tr1 ++ fetches tr2.
Proof. apply omap_app. Qed.

Lemma fetched_bars_app tr1 tr2 : fetched_bars (tr1 ++ tr2) = fetched_bars tr1 ++ fetched_bars tr2.
Proof. apply omap_app. Qed.

Lemma consulted_quiet symbol d (ps : list (Provider X)) :
  fetches (consulted symbol d ps) = [] ∧ fetched_bars (consulted symbol d ps) = [] ∧
  List.filter is_select (consulted symbol d ps) = [] ∧ writes (consulted symbol d ps) = [].
Proof. induction ps as [|p ps IH]; simpl; done. Qed.

Lemma selects_quiet (symbols : list string) :
  fetches (map EvSelectDates symbols) = [] ∧ fetched_bars (map EvSelectDates symbols) = [].
Proof. induction symbols as [|s symbols IH]; simpl; done. Qed.

(** One call of [fetch]: a fetch, no query, no write; the database is as
    before. *)
Lemma fetch_events f symbol d w r w' :
  fetch f symbol d w = (r, w') →
  db w' = db w ∧
  ∃ delta,
    trace w' = trace w ++ delta ∧ fetches delta = [(symbol, d)] ∧
    List.filter is_select delta = [] ∧ writes delta = [] ∧
    fetched_bars delta = match r with Ok (Some bar) => [bar] | _ => [] end.
Proof.
  intros (Hdb & asked & Htr)%fetch_trace. split; [done|].
  eexists. split; [exact Htr|].
  destruct (consulted_quiet symbol d asked) as (Hf & Hb & Hs & Hw).
  simpl. rewrite fetches_app, fetched_bars_app, List.filter_app, writes_app, Hf, Hb, Hs, Hw.
  by destruct r as [[bar|]|e].
Qed.

(** The fetches of [run_initial_load] for one symbol. *)
Lemma collect_bars_events f symbol calendar bars w r w' :
  collect_bars f symbol calendar bars w = (r, w') →
  db w' = db w ∧
  ∃ delta,
    trace w' = trace w ++ delta ∧
    List.filter is_select delta = [] ∧ writes delta = [] ∧
    fetches delta `prefix_of` map (pair symbol) calendar ∧
    match r with
    | Ok bars' =>
        fetches delta = map (pair symbol) calendar ∧ bars' = bars ++ fetched_bars delta
    | Raise _ => True
    end.
Proof.
  revert bars w. induction calendar as [|d calendar IH]; intros bars w; simpl.
  { intros [= <- <-]. split; [done|]. exists []. by rewrite !app_nil_r. }
  unfold bind at 1.
  destruct (fetch f symbol d w) as [[result|e] w1] eqn:Hfetch;
    apply fetch_events in Hfetch as (Hdb1 & delta1 & Htr1 & Hf1 & Hs1 & Hw1 & Hb1).
  - intros Hrest.
    assert (∃ bars1, collect_bars f symbol calendar bars1 w1 = (r, w') ∧
                     bars1 = bars ++ fetched_bars delta1) as (bars1 & Hrun & ->).
    { rewrite Hb1. destruct result as [bar|]; eexists; (split; [exact Hrest|]);
        by rewrite ?app_nil_r. }
    apply IH in Hrun as (Hdb & delta & Htr & Hs & Hw & Hprefix & Hr).
    split; [congruence|]. exists (delta1 ++ delta).
    rewrite fetches_app, fetched_bars_app, List.filter_app, writes_app, Hf1, Hs1, Hw1, Hs, Hw.
    split; [by rewrite Htr, Htr1, <- app_assoc|]. split; [done|]. split; [done|].
    split; [by apply prefix_cons|].
    destruct r as [bars'|e]; [|done]. destruct Hr as [-> ->].
    by rewrite <- app_assoc.
  - intros [= <- <-]. split; [done|]. exists delta1.
    rewrite Hf1. repeat split; try done. apply prefix_cons, prefix_nil.
Qed.

(** The write that ends the work on a symbol: it returns, the bars then
    having a row each, or it raises and leaves the world as it was. *)
Lemma upsert_bars_events (bars : list ProviderResult) w :
  ∃ r w' delta,
    (match bars with [] => ret tt | _ => upsert_daily_bars bars end) w = (r, w') ∧
    trace w' = trace w ++ delta ∧ fetches delta = [] ∧ fetched_bars delta = [] ∧
    List.filter is_select delta = [] ∧
    (∀ symbol d, stored (daily_bars (db w)) symbol d = true →
                 stored (daily_bars (db w')) symbol d = true) ∧
    ((r = Ok tt ∧ existsb has_nan bars = false ∧
      Forall (bar_stored (daily_bars (db w'))) bars) ∨
     (w' = w ∧ existsb has_nan bars = true ∧ ∃ e, r = Raise e)).
Proof.
  destruct bars as [|bar bars].
  { exists (Ok tt), w, []. rewrite app_nil_r. repeat split; try done. by left. }
  destruct (existsb has_nan (bar :: bars)) eqn:Hbars.
  - destruct (upsert_daily_bars_raises (bar :: bars) w Hbars) as (e & Hrun & _).
    exists (Raise e), w, []. rewrite app_nil_r. repeat split; try done.
    right. split; [done|]. split; [done|]. by exists e.
  - eexists (Ok tt), _, _. split; [by apply upsert_daily_bars_unfold|].
    cbn [trace db daily_bars].
    split; [done|]. split; [done|]. split; [done|]. split; [done|]. split.
    + intros symbol d. apply executemany_upsert_stored_mono.
    + left. split; [done|]. split; [done|].
      apply Forall_forall. intros b Hb. unfold bar_stored.
      apply (executemany_upsert_stored (map stored_record (bar :: bars)) _ (stored_record b));
        [|done].
      apply in_map. by apply list_elem_of_In.
Qed.

(** The loop of [run_initial_load] over the symbols. *)
Lemma initial_load_loop_events f (calendar : list date) (symbols : list string) w r w' :
  for_each symbols
    (fun symbol =>
       (bars <- collect_bars f symbol calendar [] ;;
        match bars with
        | [] => ret tt
        | _ => upsert_daily_bars bars
        end)%M) w = (r, w') →
  ∃ delta,
    trace w' = trace w ++ delta ∧
    List.filter is_select delta = [] ∧
    fetches delta `prefix_of` all_days symbols calendar ∧
    (∀ symbol d, stored (daily_bars (db w)) symbol d = true →
                 stored (daily_bars (db w')) symbol d = true) ∧
    (r = Ok tt →
     fetches delta = all_days symbols calendar ∧
     Forall (bar_stored (daily_bars (db w'))) (fetched_bars delta)).
Proof.
  revert w. induction symbols as [|symbol rest IH]; intros w; simpl.
  { intros [= <- <-]. exists []. by rewrite app_nil_r. }
  unfold bind at 1. unfold bind at 1.
  destruct (collect_bars f symbol calendar [] w) as [[bars|e] w1] eqn:Hcollect;
    apply collect_bars_events in Hcollect as (Hdb1 & delta1 & Htr1 & Hs1 & Hw1 & Hp1 & Hr1).
  - destruct Hr1 as [Hf1 Hbars]. simpl in Hbars.
    destruct (upsert_bars_events bars w1)
      as (r2 & w2 & delta2 & -> & Htr2 & Hf2 & Hb2 & Hs2 & Hmono2 & Hwrite).
    destruct Hwrite as [(-> & _ & Hstored)|(-> & _ & e & ->)].
    + intros (delta & Htr & Hs & Hprefix & Hmono & Hok)%IH.
      exists (delta1 ++ delta2 ++ delta).
      rewrite !fetches_app, !fetched_bars_app, !List.filter_app, Hf1, Hf2, Hb2, Hs1, Hs2, Hs.
      split; [by rewrite Htr, Htr2, Htr1, <- !app_assoc|]. split; [done|]. simpl.
      split; [by apply prefix_app|].
      split; [intros s d Hsd; apply Hmono, Hmono2; by rewrite Hdb1|].
      intros Hr. destruct (Hok Hr) as [-> Hall]. split; [done|].
      apply Forall_app. split; [|done]. rewrite <- Hbars.
      eapply Forall_impl; [exact Hstored|]. intros b. apply Hmono.
    + intros [= <- <-]. exists delta1.
      split; [done|]. split; [done|].
      split; [rewrite Hf1; by apply prefix_app_r|].
      split; [by rewrite Hdb1 | done].
  - intros [= <- <-]. exists delta1.
    split; [done|]. split; [done|].
    split; [destruct Hp1 as [k ->]; rewrite <- app_assoc; by eexists|].
    split; [by rewrite Hdb1 | done].
Qed.


Lemma run_initial_load_unfold (settings : Settings) f (symbols : list string)
    (start end_ : date) (calendar : list date) w :
  load_trading_calendar settings start end_ = Ok calendar →
  run_initial_load settings f symbols start end_ w
  = for_each symbols
      (fun symbol =>
         (bars <- collect_bars f symbol calendar [] ;;
          match bars with
          | [] => ret tt
          | _ => upsert_daily_bars bars
          end)%M) w.
Proof. intros Hcal. unfold run_initial_load, bind at 1, lift. by rewrite Hcal. Qed.

Lemma dict_set_own {V} (k : string) (v : V) d : (k, v) ∈ dict_set k v d.
Proof.
  induction d as [|[k' v'] d IH]; simpl; [by left|].
  destruct (k =? k')%string; [by left | by right].
Qed.

Lemma dict_set_other {V} (k : string) (v : V) d k' v' :
  k' ≠ k → (k', v') ∈ d → (k', v') ∈ dict_set k v d.
Proof.
  intros Hne. induction d as [|[k1 v1] d IH]; simpl; [by intros ?%elem_of_nil|].
  intros [[= -> ->]|Hin]%elem_of_cons.
  - destruct (String.eqb_spec k k1) as [->|_]; [done | by left].
  - destruct (k =? k1)%string; right; [done | by apply IH].
Qed.

(** The map of [_compute_missing] has an entry for every symbol. *)
Lemma compute_missing_loop_complete (symbols : list string) d w : ∀ result result' w',
  compute_missing_loop symbols d result w = (Ok result', w') →
  ∀ s, (s, negb (stored (daily_bars (db w)) s d)) ∈ result ∨ s ∈ symbols →
       (s, negb (stored (daily_bars (db w)) s d)) ∈ result'.
Proof.
  revert w. induction symbols as [|symbol rest IH]; intros w result result' w'; simpl.
  { intros [= <- <-] s [?|?%elem_of_nil]; done. }
  unfold bind at 1. rewrite missing_daily_dates_unfold.
  intros Hrun s Hs. apply IH with (s := s) in Hrun; [done|]. simpl.
  set (flag := match filter _ [d] with [] => false | _ => true end).
  assert (Hflag : flag = negb (stored (daily_bars (db w)) symbol d)).
  { unfold flag. rewrite filter_cons, filter_nil.
    destruct (stored (daily_bars (db w)) symbol d); by case_decide. }
  destruct (decide (s = symbol)) as [->|Hne].
  - left. rewrite Hflag. apply dict_set_own.
  - destruct Hs as [Hin|[?|Hin]%elem_of_cons]; [|done|by right].
    left. by apply dict_set_other.
Qed.

Lemma run_daily_update_unfold f (trade_date : date) (symbols : list string) w :
  ∃ missing_map,
    run_daily_update f trade_date (Some symbols) w
    = for_each missing_map
        (fun '(symbol, should_fetch) =>
           if negb should_fetch then ret tt
           else (bar <- fetch f symbol trade_date ;;
                 match bar with
                 | Some b => upsert_daily_bars [b]
                 | None => ret tt
                 end)%M)
        (mk_world (ext w) (db w) (trace w ++ map EvSelectDates symbols)) ∧
    (∀ s b, (s, b) ∈ missing_map →
            s ∈ symbols ∧ b = negb (stored (daily_bars (db w)) s trade_date)) ∧
    (∀ s, s ∈ symbols → (s, negb (stored (daily_bars (db w)) s trade_date)) ∈ missing_map).
Proof.
  destruct (compute_missing_loop_spec symbols trade_date [] w)
    as (missing_map & Hloop & _ & Helem).
  exists missing_map. split; [|split].
  - unfold run_daily_update, _compute_missing, bind at 1, ret at 1. unfold bind at 1.
    by rewrite Hloop.
  - intros s b [Hnil|?]%Helem; [by apply elem_of_nil in Hnil | done].
  - intros s Hs. eapply compute_missing_loop_complete; [exact Hloop | by right].
Qed.

(** A map without a true entry asks for no fetch. *)
Lemma daily_loop_nothing_to_fetch f d (missing_map : list (string * bool)) w :
  Forall (fun entry => snd entry = false) missing_map →
  for_each missing_map
    (fun '(symbol, should_fetch) =>
       if negb should_fetch then ret tt
       else (bar <- fetch f symbol d ;;
             match bar with
             | Some b => upsert_daily_bars [b]
             | None => ret tt
             end)%M) w = (Ok tt, w).
Proof.
  induction 1 as [|[symbol flag] rest Hflag _ IH]; simpl; [done|].
  simpl in Hflag. subst flag. unfold bind at 1. simpl. exact IH.
Qed.

End RunFacts.

(** X26: [run_initial_load] never reads the storage: whatever the database
    holds, it asks the fetcher for every day of the calendar for every
    symbol, symbol by symbol and in the order of the calendar, up to the
    point where it stops; a run that completes has made all these fetches. *)
Theorem run_initial_load_fetches_all `{Builtins} {X} (settings : Settings)
    (fetcher : DailyFetcher X) (symbols : list string) (start end_ : date)
    (calendar : list date) (w : world X) :
  load_trading_calendar settings start end_ = Ok calendar →
  ∃ delta,
    trace (snd (run_initial_load settings fetcher symbols start end_ w)) = trace w ++ delta ∧
    List.filter is_select delta = [] ∧
    fetches delta `prefix_of` all_days symbols calendar ∧
    (fst (run_initial_load settings fetcher symbols start end_ w) = Ok tt →
     fetches delta = all_days symbols calendar).
Proof.
  intros Hcal. rewrite (run_initial_load_unfold _ _ _ _ _ _ _ Hcal).
  destruct (for_each symbols _ w) as [r w'] eqn:Hrun.
  apply initial_load_loop_events in Hrun as (delta & Htr & Hs & Hprefix & _ & Hok).
  exists delta. simpl. split; [done|]. split; [done|]. split; [done|].
  intros Hr. by apply Hok.
Qed.

Lemma run_initial_load_fetches_all_witness :
  let days := [date_of_ymd 2024 1 4; date_of_ymd 2024 1 5] in
  let fetcher := DailyFetcher_init [calendar_provider "qq" 0 days] in
  let w := snd (upsert_daily_bars (H := example_builtins)
                  [sample_bar (float_of_Z 10) (float_of_Z 11) (float_of_Z 9) (float_of_Z 10)]
                  empty_world) in
  let run := run_initial_load (H := example_builtins) example_settings fetcher
               ["000001"] (date_of_ymd 2024 1 2) (date_of_ymd 2024 1 3) w in
  fst run = Ok tt ∧
  ∃ delta,
    trace (snd run) = trace w ++ delta ∧ List.filter is_select delta = [] ∧
    fetches delta `prefix_of` all_days ["000001"] [date_of_ymd 2024 1 2; date_of_ymd 2024 1 3].
Proof.
  intros days fetcher w run. split; [vm_compute; reflexivity|].
  destruct (run_initial_load_fetches_all (H := example_builtins) example_settings fetcher
              ["000001"] (date_of_ymd 2024 1 2) (date_of_ymd 2024 1 3)
              [date_of_ymd 2024 1 2; date_of_ymd 2024 1 3] w)
    as (delta & Htr & Hs & Hprefix & _); [vm_compute; reflexivity|].
  exists delta. split; [exact Htr|]. split; [exact Hs | exact Hprefix].
Defined.

(** X27: after a run of [run_initial_load] that completes, every bar that the
    fetcher answered with has a row in table daily_bars, and every symbol and
    day that had a row before still has one. *)
Theorem run_initial_load_stores_fetched `{Builtins} {X} (settings : Settings)
    (fetcher : DailyFetcher X) (symbols : list string) (start end_ : date)
    (w w' : world X) :
  run_initial_load settings fetcher symbols start end_ w = (Ok tt, w') →
  ∃ delta,
    trace w' = trace w ++ delta ∧
    Forall (bar_stored (daily_bars (db w'))) (fetched_bars delta) ∧
    (∀ symbol d, stored (daily_bars (db w)) symbol d = true →
                 stored (daily_bars (db w')) symbol d = true).
Proof.
  unfold run_initial_load, bind at 1, lift.
  destruct (load_trading_calendar settings start end_) as [calendar|e]; [|done].
  intros (delta & Htr & _ & _ & Hmono & Hok)%initial_load_loop_events.
  exists delta. split; [done|]. split; [by apply Hok | done].
Qed.

Lemma run_initial_load_stores_fetched_witness :
  let days := [date_of_ymd 2024 1 1; date_of_ymd 2024 1 3; date_of_ymd 2024 1 5] in
  let fetcher := DailyFetcher_init [calendar_provider "qq" 0 days] in
  let run := run_initial_load (H := example_builtins) example_settings fetcher
               ["000001"] (date_of_ymd 2024 1 1) (date_of_ymd 2024 1 5) empty_world in
  ∃ delta,
    trace (snd run) = trace empty_world ++ delta ∧
    Forall (bar_stored (daily_bars (db (snd run)))) (fetched_bars delta) ∧
    length (fetched_bars (trace (snd run))) = 3.
Proof.
  intros days fetcher run.
  destruct (run_initial_load_stores_fetched (H := example_builtins) example_settings fetcher
              ["000001"] (date_of_ymd 2024 1 1) (date_of_ymd 2024 1 5) empty_world (snd run))
    as (delta & Htr & Hall & _); [vm_compute; reflexivity|].
  exists delta. split; [exact Htr|]. split; [exact Hall|]. vm_compute. reflexivity.
Defined.


(** X29: when every symbol of the list has a row for the day,
    [run_daily_update] only makes its queries: no provider is asked, nothing
    is written, and the run completes. *)
Theorem run_daily_update_nothing_missing `{Builtins} {X} (fetcher : DailyFetcher X)
    (trade_date : date) (symbols : list string) (w : world X) :
  Forall (fun symbol => stored (daily_bars (db w)) symbol trade_date = true) symbols →
  run_daily_update fetcher trade_date (Some symbols) w
  = (Ok tt, mk_world (ext w) (db w) (trace w ++ map EvSelectDates symbols)).
Proof.
  intros Hstored.
  destruct (run_daily_update_unfold fetcher trade_date symbols w)
    as (missing_map & -> & Helem & _).
  apply daily_loop_nothing_to_fetch. apply Forall_forall. intros [s b] Hin.
  destruct (Helem s b Hin) as [Hs ->]. simpl.
  rewrite Forall_forall in Hstored. by rewrite (Hstored s Hs).
Qed.

Lemma run_daily_update_nothing_missing_witness :
  let d := date_of_ymd 2024 1 2 in
  let fetcher := DailyFetcher_init [calendar_provider "qq" 0 [d]] in
  let w := snd (upsert_daily_bars (H := example_builtins)
                  [sample_bar (float_of_Z 10) (float_of_Z 11) (float_of_Z 9) (float_of_Z 10)]
                  empty_world) in
  run_daily_update (H := example_builtins) fetcher d (Some ["000001"]) w
  = (Ok tt, mk_world (ext w) (db w) (trace w ++ [EvSelectDates "000001"])).
Proof.
  intros d fetcher w.
  apply (run_daily_update_nothing_missing (H := example_builtins) fetcher d ["000001"] w).
  constructor; [vm_compute; reflexivity | constructor].
Defined.
